(** * filter-history.py: a shallow embedding and its verified properties

    The script extracts the history of one sub-directory of a repository
    into a new repository.  It is a linear sequence of external commands
    (git, git filter-repo, gh), directory changes and recursive deletions.

    The embedding is a small state-and-exception monad that also records,
    in order, every call the script makes to the outside: calls of the
    logger, [subprocess.Popen], [proc.kill], [os.chdir] and
    [shutil.rmtree].  What the external programs do is not part of the
    script: it is given by an environment [Env], over which the theorems
    quantify. *)

From Stdlib Require Import Ascii.
From stdpp Require Import gmap strings list fin_maps pretty.

Open Scope string_scope.
Open Scope Z_scope.
Open Scope list_scope.

(** ** The file system *)

(** A file-system tree: regular files and directories.  Symbolic links
    and permissions are not modelled. *)
#[warnings="-register-all"]
Inductive node :=
| File (data : string)
| Dir (entries : gmap string node).

Definition is_dir (n : node) : bool :=
  match n with Dir _ => true | File _ => false end.

(** The node found at the end of a chain of entry names. *)
Fixpoint lookup_path (p : list string) (n : node) : option node :=
  match p with
  | [] => Some n
  | c :: p' =>
      match n with
      | Dir m => match m !! c with
                 | Some n' => lookup_path p' n'
                 | None => None
                 end
      | File _ => None
      end
  end.

(** Remove the entry at the end of the chain, with all that is below it. *)
Fixpoint delete_path (p : list string) (n : node) : node :=
  match p with
  | [] => n
  | [c] => match n with
           | Dir m => Dir (delete c m)
           | File _ => n
           end
  | c :: p' =>
      match n with
      | Dir m => match m !! c with
                 | Some n' => Dir (<[c := delete_path p' n']> m)
                 | None => n
                 end
      | File _ => n
      end
  end.

(** Put a node at the end of the chain (its parent has to be a directory). *)
Fixpoint insert_path (p : list string) (x : node) (n : node) : node :=
  match p with
  | [] => x
  | [c] => match n with
           | Dir m => Dir (<[c := x]> m)
           | File _ => n
           end
  | c :: p' =>
      match n with
      | Dir m => match m !! c with
                 | Some n' => Dir (<[c := insert_path p' x n']> m)
                 | None => n
                 end
      | File _ => n
      end
  end.

(** ** Paths ([pathlib.Path], POSIX flavour) *)

Record Path := mkPath { p_abs : bool; p_parts : list string }.

Definition slash : ascii := "/"%char.
Definition backslash : ascii := "\"%char.

(** [s.split("/")] *)
Fixpoint split_slash (s : string) : list string :=
  match s with
  | EmptyString => [EmptyString]
  | String c s' =>
      if Ascii.eqb c slash then EmptyString :: split_slash s'
      else match split_slash s' with
           | h :: t => String c h :: t
           | [] => [String c EmptyString]
           end
  end.

(** ["/".join(parts)] *)
Fixpoint join_slash (parts : list string) : string :=
  match parts with
  | [] => ""
  | [c] => c
  | c :: rest => c +:+ "/" +:+ join_slash rest
  end.

(** [s.replace("\\", "/")] *)
Fixpoint replace_backslash (s : string) : string :=
  match s with
  | EmptyString => EmptyString
  | String c s' =>
      String (if Ascii.eqb c backslash then slash else c) (replace_backslash s')
  end.

Definition proper_part (c : string) : bool :=
  negb (String.eqb c "") && negb (String.eqb c ".").

(** [Path(s)]: empty and "." components are dropped, ".." is kept. *)
Definition path_of_string (s : string) : Path :=
  match s with
  | String c _ =>
      mkPath (Ascii.eqb c slash) (filter (λ c, Is_true (proper_part c)) (split_slash s))
  | EmptyString => mkPath false []
  end.

(** [p / q] *)
Definition path_join (p q : Path) : Path :=
  if p_abs q then q else mkPath (p_abs p) (p_parts p ++ p_parts q).

(** [str(p)] *)
Definition path_str (p : Path) : string :=
  if p_abs p then "/" +:+ join_slash (p_parts p)
  else match p_parts p with
       | [] => "."
       | _ => join_slash (p_parts p)
       end.

(** [p.name] *)
Definition path_name (p : Path) : string := List.last (p_parts p) "".

(** ** Configuration, exceptions, events *)

(** [_RunConfig] *)
Record RunConfig := mkRunConfig {
  src_repository : string;
  dst_repository : string;
  target_dir : Path;
  is_public : bool;
  is_archive : bool;
  git_user_name : option string;
  git_user_email : option string;
  clean : bool;
  default_timeout_sec : Z;
  dry_run : bool;
  verbose : Z
}.

Inductive oserror := ENOENT | ENOTDIR | EACCES | EBUSY.

(** The exceptions that occur: [_ScriptError] is the script's own class,
    the others are Python's. *)
Inductive exn :=
| ScriptError (msg : string)
| TimeoutExpired (args : list string) (timeout : Z)
| OSError (k : oserror) (filename : string)
| IndexError
| ValueError (msg : string).

Inductive level := INFO | ERROR.

(** One constructor per format string passed to [_logger]. *)
Inductive log_msg :=
| MsgConfig (c : RunConfig)
| MsgCommand (args : list string)
| MsgSuccess
| MsgMove (src dst : string)
| MsgRemove (name : string)
| MsgSkip (src : string)
| MsgToolMissing (e : string)
| MsgException (e : exn).

(** The text of the only message logged at level ERROR by a step:
    f"Could not find tool: {e}", where [e] is the text of the caught
    [_ScriptError]. *)
Definition tool_missing_text (e : string) : string :=
  "Could not find tool: " +:+ e.

(** Calls to the outside, and what a process answered. *)
Inductive event :=
| EvLog (l : level) (m : log_msg)
| EvPopen (args : list string)
| EvExited (code : Z)
| EvTimedOut
| EvKill
| EvChdir (dir : string)
| EvRmtree (path : string).

(** ** The world and the environment *)

Record World := mkWorld {
  w_fs : node;             (* the file system, from "/" *)
  w_cwd : list string;     (* the working directory of the process *)
  w_spawned : nat          (* how many processes were created so far *)
}.

(** How a created process ends when it is waited for with a timeout. *)
Inductive run :=
| Exits (code : Z) (fs' : node)
| TimesOut (fs' : node).

(** What is outside the script: the behaviour of the external programs,
    the order in which the system lists a directory and the order in
    which Python iterates over a set of strings. *)
Record Env := mkEnv {
  env_popen : list string → World → oserror + (Z → run);
  env_scandir : list string → list string;
  env_scandir_perm : ∀ l, env_scandir l ≡ₚ l;
  env_set_iter : list string → list string;
  env_set_iter_perm : ∀ l, env_set_iter l ≡ₚ l
}.

(** ** The monad: state, exceptions and the list of events *)

Inductive result (A : Type) :=
| Ok (a : A)
| Raise (e : exn).
Arguments Ok {A} a.
Arguments Raise {A} e.

Record Out (A : Type) := mkOut {
  out_events : list event;
  out_res : result A;
  out_world : World
}.
Arguments mkOut {A} _ _ _.
Arguments out_events {A} _.
Arguments out_res {A} _.
Arguments out_world {A} _.

Definition M (A : Type) : Type := World → Out A.

#[global] Instance M_ret : MRet M := λ A a w, mkOut [] (Ok a) w.

#[global] Instance M_bind : MBind M := λ A B f m w,
  let o := m w in
  match out_res o with
  | Ok a => let o' := f a (out_world o) in
            mkOut (out_events o ++ out_events o') (out_res o') (out_world o')
  | Raise e => mkOut (out_events o) (Raise e) (out_world o)
  end.

Definition raise {A} (e : exn) : M A := λ w, mkOut [] (Raise e) w.
Definition emit (e : event) : M unit := λ w, mkOut [e] (Ok tt) w.
Definition log (l : level) (m : log_msg) : M unit := emit (EvLog l m).
Definition get_world : M World := λ w, mkOut [] (Ok w) w.
Definition put_fs (fs : node) : M unit := λ w,
  mkOut [] (Ok tt) (mkWorld fs (w_cwd w) (w_spawned w)).
Definition put_cwd (d : list string) : M unit := λ w,
  mkOut [] (Ok tt) (mkWorld (w_fs w) d (w_spawned w)).

(** [try: body finally: fin] *)
Definition try_finally {A} (body : M A) (fin : M unit) : M A := λ w,
  let o := body w in
  let f := fin (out_world o) in
  mkOut (out_events o ++ out_events f)
        (match out_res f with Ok _ => out_res o | Raise e => Raise e end)
        (out_world f).

(** [try: body except ...: handler]; [handler e = None] when no clause
    matches [e]. *)
Definition try_except {A} (body : M A) (handler : exn → option (M A)) : M A := λ w,
  let o := body w in
  match out_res o with
  | Ok a => o
  | Raise e =>
      match handler e with
      | Some h => let o' := h (out_world o) in
                  mkOut (out_events o ++ out_events o') (out_res o') (out_world o')
      | None => o
      end
  end.

(** [for x in l: body], with the variables the body updates as [s]. *)
Fixpoint for_each {A S} (l : list A) (s : S) (body : A → S → M S) : M S :=
  match l with
  | [] => mret s
  | x :: l' => s' ← body x s; for_each l' s' body
  end.

(** ** Path resolution *)

Definition step_part (cur : list string) (c : string) : list string :=
  if String.eqb c ".." then removelast cur
  else if String.eqb c "." then cur
  else cur ++ [c].

(** Follow the components one by one, as the system does: every
    directory that is gone through has to exist. *)
Fixpoint walk (fs : node) (cur : list string) (parts : list string)
  : oserror + list string :=
  match parts with
  | [] => inr cur
  | c :: rest =>
      match lookup_path cur fs with
      | Some (Dir _) => walk fs (step_part cur c) rest
      | Some (File _) => inl ENOTDIR
      | None => inl ENOENT
      end
  end.

Definition stat (w : World) (p : Path) : oserror + (list string * node) :=
  match walk (w_fs w) (if p_abs p then [] else w_cwd w) (p_parts p) with
  | inl k => inl k
  | inr q => match lookup_path q (w_fs w) with
             | Some n => inr (q, n)
             | None => inl ENOENT
             end
  end.

(** ** The script *)

(** A created process: what it was started with and how it will end. *)
Record proc := mkProc {
  proc_args : list string;
  proc_run : Z → run
}.

Section Script.
Context (env : Env).

(** *** Library calls *)

(** [Path.cwd()] *)
Definition getcwd : M Path := λ w,
  match lookup_path (w_cwd w) (w_fs w) with
  | Some (Dir _) => mkOut [] (Ok (mkPath true (w_cwd w))) w
  | _ => mkOut [] (Raise (OSError ENOENT "")) w
  end.

(** [p.absolute()] *)
Definition absolute (p : Path) : M Path :=
  if p_abs p then mret p else cwd ← getcwd; mret (path_join cwd p).

(** [os.chdir(p)] *)
Definition chdir (p : Path) : M unit :=
  emit (EvChdir (path_str p));;
  w ← get_world;
  match stat w p with
  | inr (q, Dir _) => put_cwd q
  | inr (_, File _) => raise (OSError ENOTDIR (path_str p))
  | inl k => raise (OSError k (path_str p))
  end.

(** [list(p.iterdir())] *)
Definition iterdir (p : Path) : M (list Path) :=
  w ← get_world;
  match stat w p with
  | inr (_, Dir m) =>
      mret ((λ n, path_join p (mkPath false [n])) <$> env_scandir env (map_to_list m).*1)
  | inr (_, File _) => raise (OSError ENOTDIR (path_str p))
  | inl k => raise (OSError k (path_str p))
  end.

(** [p.exists()] *)
Definition exists_ (p : Path) : M bool :=
  w ← get_world;
  mret (match stat w p with inr _ => true | inl _ => false end).

(** [shutil.rmtree(p)], [p] a string or the text of a [Path]: the
    path has to be a directory; it is removed with everything below
    it. *)
Definition rmtree (p : string) : M unit :=
  emit (EvRmtree p);;
  w ← get_world;
  if String.eqb p "" then raise (OSError ENOENT p)
  else
    match stat w (path_of_string p) with
    | inr ([], Dir _) => put_fs (Dir ∅);; raise (OSError EBUSY p)
    | inr (q, Dir _) => put_fs (delete_path q (w_fs w))
    | inr (_, File _) => raise (OSError ENOTDIR p)
    | inl k => raise (OSError k p)
    end.

(** [subprocess.Popen(args, encoding="utf-8")] *)
Definition Popen (args : list string) : M proc :=
  emit (EvPopen args);;
  w ← get_world;
  match env_popen env args w with
  | inl k => raise (OSError k (hd "" args))
  | inr beh =>
      (λ w, mkOut [] (Ok (mkProc args beh))
                  (mkWorld (w_fs w) (w_cwd w) (S (w_spawned w))))
  end.

(** [proc.communicate(timeout=t)], followed by reading
    [proc.returncode]. *)
Definition communicate (p : proc) (timeout : Z) : M Z :=
  match proc_run p timeout with
  | Exits code fs' => emit (EvExited code);; put_fs fs';; mret code
  | TimesOut fs' =>
      emit EvTimedOut;; put_fs fs';; raise (TimeoutExpired (proc_args p) timeout)
  end.

(** [proc.kill()] *)
Definition kill (p : proc) : M unit := emit EvKill.

(** *** [_run_command] *)
Definition _run_command (command_args : list string) (dry_run : bool)
    (timeout_sec : Z) : M unit :=
  log INFO (MsgCommand command_args);;
  if dry_run then mret tt
  else
    proc ← Popen command_args;
    try_except
      (returncode ← communicate proc timeout_sec;
       if decide (returncode ≠ 0)
       then raise (ScriptError
                     ("command failed with exit status " +:+ pretty returncode))
       else mret tt)
      (λ e, Some (kill proc;; raise e));;
    log INFO MsgSuccess.

(** *** [_working_directory] *)
Definition _working_directory {A} (path : Path) (body : M A) : M A :=
  prev_cwd ← getcwd;
  chdir path;;
  try_finally body (chdir prev_cwd).

(** *** [_change_root_directory] *)

(** The first loop: one move per entry of the target directory. *)
Definition move_target (root_folders : gset string) (dry_run : bool)
    (timeout_sec : Z) (filepath : Path) (skip_folders : list (string * string))
  : M (list (string * string)) :=
  let name := path_name filepath in
  let collides := bool_decide (name ∈ root_folders) in
  let new_name := if collides then name +:+ "_test" else name in
  let skip_folders :=
    if collides then skip_folders ++ [(new_name, name)] else skip_folders in
  log INFO (MsgMove (path_str filepath) new_name);;
  _run_command ["git"; "mv"; path_str filepath; new_name] dry_run timeout_sec;;
  mret skip_folders.

(** The second loop: the deletions. *)
Definition remove_root (old_path : string) (_ : unit) : M unit :=
  if String.eqb old_path ".git" then mret tt
  else
    log INFO (MsgRemove old_path);;
    rmtree old_path.

(** The third loop: the renames to the final names. *)
Definition move_back (dry_run : bool) (timeout_sec : Z)
    (pair : string * string) (_ : unit) : M unit :=
  let '(old_filename, new_filename) := pair in
  log INFO (MsgMove old_filename new_filename);;
  _run_command ["git"; "mv"; old_filename; new_filename] dry_run timeout_sec.

Definition _change_root_directory (clone_dir target_dir : Path)
    (dry_run : bool) (timeout_sec : Z) : M unit :=
  dir ← absolute clone_dir;
  _working_directory dir
    (root_entries ← iterdir (mkPath false []);
     let root_folders : gset string := list_to_set (path_name <$> root_entries) in
     target_files ← iterdir target_dir;
     skip_folders ←
       for_each target_files [] (move_target root_folders dry_run timeout_sec);
     for_each (env_set_iter env (elements root_folders)) tt remove_root;;
     for_each skip_folders tt (move_back dry_run timeout_sec)).

(** *** [_check_tools] *)
Definition _check_tools (dry_run : bool) (timeout_sec : Z) : M bool :=
  try_except
    (_run_command ["git"; "--version"] dry_run timeout_sec;;
     _run_command ["git"; "filter-repo"; "--version"] dry_run timeout_sec;;
     _run_command ["gh"; "--version"] dry_run timeout_sec;;
     mret true)
    (λ e, match e with
          | ScriptError msg => Some (log ERROR (MsgToolMissing msg);; mret false)
          | _ => None
          end).

(** *** [_create_gh_repo_and_set_upstream] *)
Definition _create_gh_repo_and_set_upstream (git_repository : Path)
    (repository_name remote_name : string) (is_public dry_run : bool)
    (timeout_set : Z) : M unit :=
  _run_command
    ["gh"; "repo"; "create"; repository_name;
     if is_public then "--public" else "--private"]
    dry_run timeout_set;;
  _working_directory git_repository
    (_run_command
       ["git"; "remote"; "add"; remote_name;
        "https://github.com/" +:+ repository_name +:+ ".git"]
       dry_run timeout_set).

(** *** [_filter_history] *)
Definition _filter_history (src_repository : string)
    (target_dir clone_dir : Path) (dry_run : bool) (timeout_sec : Z) : M unit :=
  dir ← absolute clone_dir;
  _run_command ["gh"; "repo"; "clone"; src_repository; path_str dir]
               dry_run timeout_sec;;
  dir ← absolute clone_dir;
  _working_directory dir
    (_run_command
       ["git"; "filter-repo"; "--path"; replace_backslash (path_str target_dir)]
       dry_run timeout_sec).

(** *** [_gh_repo_archive] *)
Definition _gh_repo_archive (repository_name : string) (dry_run : bool)
    (timeout_sec : Z) : M unit :=
  _run_command ["gh"; "repo"; "archive"; repository_name; "-y"]
               dry_run timeout_sec.

(** *** [_git_commit] *)
Definition _git_commit (git_directory : Path)
    (user_name user_email : option string) (message : string)
    (dry_run : bool) (timeout_sec : Z) : M unit :=
  dir ← absolute git_directory;
  _working_directory dir
    (match user_name with
     | Some user_name =>
         _run_command ["git"; "config"; "--local"; "user.name"; user_name]
                      dry_run timeout_sec
     | None => mret tt
     end;;
     match user_email with
     | Some user_email =>
         _run_command ["git"; "config"; "--local"; "user.email"; user_email]
                      dry_run timeout_sec
     | None => mret tt
     end;;
     _run_command ["git"; "add"; "."] dry_run timeout_sec;;
     _run_command ["git"; "commit"; "-m"; message] dry_run timeout_sec).

(** *** [_git_push] *)
Definition _git_push (git_directory : Path) (remote_name branch_name : string)
    (dry_run : bool) (timeout_sec : Z) : M unit :=
  _working_directory git_directory
    (_run_command ["git"; "push"; remote_name; branch_name] dry_run timeout_sec).

(** *** [_git_rename] *)

(** The body of the loop over [names.items()]; the variable it updates
    is [is_rename]. *)
Definition rename_one (dry_run : bool) (timeout_sec : Z)
    (item : Path * Path) (is_rename : bool) : M bool :=
  let '(src, dst) := item in
  found ← exists_ src;
  if negb found then
    log INFO (MsgSkip (path_str src));;
    mret is_rename
  else
    _run_command ["git"; "mv"; path_str src; path_str dst] dry_run timeout_sec;;
    mret true.

Definition _git_rename (git_directory : Path) (names : list (Path * Path))
    (dry_run : bool) (timeout_sec : Z) : M bool :=
  _working_directory git_directory
    (for_each names false (rename_one dry_run timeout_sec)).

(** *** [_main], after [_parse_args] and [_setup_logger] *)
Definition _main (config : RunConfig) : M unit :=
  log INFO (MsgConfig config);;
  let raw_dir := path_of_string "data/raw" in
  name ← match split_slash (src_repository config) !! 1%nat with
         | Some name => mret name
         | None => raise IndexError
         end;
  let repository_dir := path_join raw_dir (path_of_string name) in
  let rename_files := [(path_of_string "index.md", path_of_string "README.md")] in
  is_tools ← _check_tools (dry_run config) (default_timeout_sec config);
  if negb is_tools then raise (ValueError "could not find tools.")
  else
    _filter_history (src_repository config) (target_dir config) repository_dir
                    (dry_run config) (default_timeout_sec config);;
    _change_root_directory repository_dir (target_dir config)
                           (dry_run config) (default_timeout_sec config);;
    _git_commit repository_dir (git_user_name config) (git_user_email config)
                "chore: change root directory."
                (dry_run config) (default_timeout_sec config);;
    '(is_rename : bool) ← _git_rename repository_dir rename_files
                            (dry_run config) (default_timeout_sec config);
    (if is_rename then
       _git_commit repository_dir (git_user_name config) (git_user_email config)
                   "chore: change filenames."
                   (dry_run config) (default_timeout_sec config)
     else mret tt);;
    _create_gh_repo_and_set_upstream repository_dir (dst_repository config)
      "upstream" (is_public config) (dry_run config) (default_timeout_sec config);;
    _git_push repository_dir "upstream" "master"
              (dry_run config) (default_timeout_sec config);;
    (if is_archive config then
       _gh_repo_archive (dst_repository config)
                        (dry_run config) (default_timeout_sec config)
     else mret tt);;
    (if clean config then rmtree (path_str repository_dir) else mret tt).

(** The guarded call at the end of the file, from the point where
    [_parse_args] has returned [config]: the exit status.  What argparse
    does before that (it leaves with [SystemExit], which is no
    [Exception] and passes the guard) is not part of the model. *)
Definition script (config : RunConfig) : M Z :=
  try_except (_main config;; mret 0)
             (λ e, Some (log ERROR (MsgException e);; mret 1)).

End Script.

Arguments _run_command : simpl never.
Arguments _working_directory : simpl never.
Arguments chdir : simpl never.
Arguments iterdir : simpl never.
Arguments rmtree : simpl never.
Arguments getcwd : simpl never.
Arguments absolute : simpl never.

(** ** A model of the external programs

    Used to state what the Root Flattening step achieves when [git mv]
    does what git documents, and to run the script on concrete inputs. *)

(** Move the tree at [src] to [dst]; an existing directory [dst]
    receives it under its own name, as [mv] and [git mv] do. *)
Definition move_path (src dst : list string) (fs : node) : option node :=
  match src, lookup_path src fs with
  | _ :: _, Some n =>
      let dst' := match lookup_path dst fs with
                  | Some (Dir _) => dst ++ [List.last src ""]
                  | _ => dst
                  end in
      let fs1 := delete_path src fs in
      match lookup_path dst' fs, lookup_path (removelast dst') fs1 with
      | None, Some (Dir _) => Some (insert_path dst' n fs1)
      | _, _ => None
      end
  | _, _ => None
  end.

(** [git mv s d] run in the working directory of [w]. *)
Definition git_mv (s d : string) (w : World) : run :=
  let dp := path_of_string d in
  match stat w (path_of_string s),
        walk (w_fs w) (if p_abs dp then [] else w_cwd w) (p_parts dp) with
  | inr (qs, _), inr qd =>
      match move_path qs qd (w_fs w) with
      | Some fs' => Exits 0 fs'
      | None => Exits 128 (w_fs w)
      end
  | _, _ => Exits 128 (w_fs w)
  end.

(** The environments in which [git mv] is the model above. *)
Definition git_mv_as_modelled (env : Env) : Prop :=
  ∀ s d w, ∃ beh,
    env_popen env ["git"; "mv"; s; d] w = inr beh ∧ ∀ t, beh t = git_mv s d w.

(** ** Reading a list of events *)

(** The commands handed to the Command Runner, in order: one
    "=== command:" entry is logged per call, dry-run or not. *)
Definition commands (evs : list event) : list (list string) :=
  omap (λ e, match e with EvLog _ (MsgCommand a) => Some a | _ => None end) evs.

(** The commands for which a process was asked for. *)
Definition spawned (evs : list event) : list (list string) :=
  omap (λ e, match e with EvPopen a => Some a | _ => None end) evs.

(** The paths handed to [shutil.rmtree]. *)
Definition rmtrees (evs : list event) : list string :=
  omap (λ e, match e with EvRmtree p => Some p | _ => None end) evs.

(** The texts logged at level ERROR by the Tool Availability Check. *)
Definition tool_errors (evs : list event) : list string :=
  omap (λ e, match e with
             | EvLog ERROR (MsgToolMissing m) => Some (tool_missing_text m)
             | _ => None
             end) evs.

Definition is_chdir (e : event) : Prop :=
  match e with EvChdir _ => True | _ => False end.

(** [p in s], for strings *)
Fixpoint contains (p s : string) : bool :=
  String.prefix p s ||
  match s with
  | String _ s' => contains p s'
  | EmptyString => false
  end.

(** The message of the [_ScriptError] raised for a non-zero exit status. *)
Definition exit_status_text (code : Z) : string :=
  "command failed with exit status " +:+ pretty code.

(** ** Concrete environments and worlds *)

(** An environment that lists directories and sets in the order of the
    model, with the given behaviour of programs. *)
Definition plain_env (popen : list string → World → oserror + (Z → run)) : Env :=
  mkEnv popen id (λ l, reflexivity l) id (λ l, reflexivity l).

(** Every program succeeds at once and touches no file. *)
Definition quiet_popen (args : list string) (w : World) : oserror + (Z → run) :=
  inr (λ _, Exits 0 (w_fs w)).

(** Every program runs longer than any timeout. *)
Definition slow_popen (args : list string) (w : World) : oserror + (Z → run) :=
  inr (λ _, TimesOut (w_fs w)).

(** The program called [tool] exits with status [code], the others
    succeed. *)
Definition failing_popen (tool : string) (code : Z) (args : list string)
    (w : World) : oserror + (Z → run) :=
  inr (λ _, if String.eqb (hd "" args) tool then Exits code (w_fs w)
            else Exits 0 (w_fs w)).

(** The program called [tool] is not installed, the others succeed. *)
Definition missing_popen (tool : string) (args : list string) (w : World)
  : oserror + (Z → run) :=
  if String.eqb (hd "" args) tool then inl ENOENT
  else inr (λ _, Exits 0 (w_fs w)).

(** A small monorepo as [gh repo clone] leaves it on disk. *)
Definition mono_tree : node :=
  Dir {[ ".git" := Dir ∅;
         "docs" := Dir {[ "guide.md" := File "guide" ]};
         "libs" := Dir {[ "widget" :=
                     Dir {[ "a.txt" := File "a";
                            "index.md" := File "index";
                            "libs" := Dir {[ "c.txt" := File "c" ]} ]} ]} ]}.

(** [gh repo clone] creates the clone, [git filter-repo] drops what is
    outside the kept path (here: [docs]), [git mv] moves, everything
    else succeeds without touching a file. *)
Definition demo_popen (args : list string) (w : World) : oserror + (Z → run) :=
  inr (λ _,
    match args with
    | ["git"; "mv"; s; d] => git_mv s d w
    | ["gh"; "repo"; "clone"; _; d] =>
        let q := p_parts (path_of_string d) in
        match lookup_path q (w_fs w), lookup_path (removelast q) (w_fs w) with
        | None, Some (Dir _) => Exits 0 (insert_path q mono_tree (w_fs w))
        | _, _ => Exits 1 (w_fs w)
        end
    | ["git"; "filter-repo"; "--path"; _] =>
        Exits 0 (delete_path (w_cwd w ++ ["docs"]) (w_fs w))
    | _ => Exits 0 (w_fs w)
    end).

Definition demo_env : Env := plain_env demo_popen.

(** A fresh start: the script is run in [/work], and [data/raw] is there. *)
Definition fresh_world : World :=
  mkWorld (Dir {[ "work" := Dir {[ "data" := Dir {[ "raw" := Dir ∅ ]} ]} ]})
          ["work"] 0.

(** A clone is left over from an earlier run that stopped after the
    History Filter step. *)
Definition stale_world : World :=
  mkWorld (Dir {[ "work" := Dir {[ "data" := Dir {[ "raw" :=
             Dir {[ "mono" := delete_path ["docs"] mono_tree ]} ]} ]} ]})
          ["work"] 0.

Definition demo_config (dry : bool) : RunConfig :=
  mkRunConfig "org/mono" "org/widget" (path_of_string "libs/widget")
              false false None None false 30 dry 0.

(** Every event that [m] emits, from whatever world, satisfies [Q]. *)
Definition emits {A} (Q : event → Prop) (m : M A) : Prop :=
  ∀ w, Forall Q (out_events (m w)).

Definition not_popen (e : event) : Prop :=
  match e with EvPopen _ => False | _ => True end.

(** ** The claims about failures, as predicates *)

(** A process that ends in one of the two failure modes of a command. *)
Definition failure_mode (r : run) : Prop :=
  match r with
  | Exits code _ => code ≠ 0
  | TimesOut _ => True
  end.

(** "Both failure modes reach the caller as a [_ScriptError]". *)
Definition single_error_kind (env : Env) (args : list string) (t : Z)
    (w : World) : Prop :=
  ∀ beh, env_popen env args w = inr beh → failure_mode (beh t) →
  ∃ msg, out_res (_run_command env args false t w) = Raise (ScriptError msg).

(** The three commands of the Tool Availability Check. *)
Definition tool_commands : list (list string) :=
  [["git"; "--version"]; ["git"; "filter-repo"; "--version"]; ["gh"; "--version"]].

(** The calls of the Command Runner made for a list of commands run one
    after the other until one raises, each with its outcome. *)
Fixpoint invocations (env : Env) (dry_run : bool) (t : Z)
    (cmds : list (list string)) (w : World) : list (list string * Out unit) :=
  match cmds with
  | [] => []
  | c :: rest =>
      let o := _run_command env c dry_run t w in
      (c, o) :: match out_res o with
                | Ok _ => invocations env dry_run t rest (out_world o)
                | Raise _ => []
                end
  end.

Definition all_succeed (inv : list (list string * Out unit)) : Prop :=
  (λ x, out_res x.2) <$> inv = [Ok tt; Ok tt; Ok tt].

(** "A [_ScriptError] of an invocation is logged as an error naming the
    offending tool": the program of the command occurs in the text. *)
Definition check_tools_names_tool (env : Env) (dry_run : bool) (t : Z)
    (w : World) : Prop :=
  let o := _check_tools env dry_run t w in
  ∀ args r msg,
    (args, r) ∈ invocations env dry_run t tool_commands w →
    out_res r = Raise (ScriptError msg) →
    out_res o = Ok false ∧
    ∃ text, text ∈ tool_errors (out_events o) ∧ contains (hd "" args) text = true.

(** ** The working directory *)

(** [os.chdir] to the absolute path [d] succeeds in the file system [fs]:
    the directory is there, under the name the process knows it by. *)
Definition dir_reachable (fs : node) (d : list string) : Prop :=
  walk fs [] d = inr d ∧ ∃ m, lookup_path d fs = Some (Dir m).


(** ** The three passes of Root Flattening, as lists of commands *)

(** The name a target entry is moved to in the first pass. *)
Definition new_name (root_folders : gset string) (filepath : Path) : string :=
  if bool_decide (path_name filepath ∈ root_folders)
  then path_name filepath +:+ "_test"
  else path_name filepath.

(** The moves of the first pass, one per target entry. *)
Definition first_moves (root_folders : gset string) (target_files : list Path)
  : list (list string) :=
  (λ f, ["git"; "mv"; path_str f; new_name root_folders f]) <$> target_files.

(** The recorded pairs (temporary name, final name). *)
Definition collisions (root_folders : gset string) (target_files : list Path)
  : list (string * string) :=
  omap (λ f, if bool_decide (path_name f ∈ root_folders)
             then Some (path_name f +:+ "_test", path_name f)
             else None) target_files.

(** The renames of the last pass. *)
Definition second_moves (root_folders : gset string) (target_files : list Path)
  : list (list string) :=
  (λ p, ["git"; "mv"; p.1; p.2]) <$> collisions root_folders target_files.

(** The root entries handed to [shutil.rmtree], in the order of the set. *)
Definition deletions (env : Env) (root_folders : gset string) : list string :=
  filter (λ n, n ≠ ".git") (env_set_iter env (elements root_folders)).

(** The events [E1], [E2], [E3] of the three passes are in order: moves
    only, then deletions only and only once every move was issued, then
    renames only and only once every deletion was issued. *)
Definition passes_in_order (env : Env) (root_folders : gset string)
    (target_files : list Path) (E1 E2 E3 : list event) (finished : Prop) : Prop :=
  (rmtrees E1 = [] ∧
   commands E1 `prefix_of` first_moves root_folders target_files) ∧
  (commands E2 = [] ∧
   rmtrees E2 `prefix_of` deletions env root_folders ∧
   (E2 ≠ [] → commands E1 = first_moves root_folders target_files)) ∧
  (rmtrees E3 = [] ∧
   commands E3 `prefix_of` second_moves root_folders target_files ∧
   (E3 ≠ [] → commands E1 = first_moves root_folders target_files ∧
              rmtrees E2 = deletions env root_folders)) ∧
  (finished →
   commands E1 = first_moves root_folders target_files ∧
   rmtrees E2 = deletions env root_folders ∧
   commands E3 = second_moves root_folders target_files).

(** ** The pipeline as a list of steps *)

(** What [_main] does before the first step: it logs the configuration,
    computes the directory of the clone and checks the tools. *)
Definition prelude (env : Env) (config : RunConfig) : M Path :=
  log INFO (MsgConfig config);;
  name ← match split_slash (src_repository config) !! 1%nat with
         | Some name => mret name
         | None => raise IndexError
         end;
  is_tools ← _check_tools env (dry_run config) (default_timeout_sec config);
  if negb is_tools then raise (ValueError "could not find tools.")
  else mret (path_join (path_of_string "data/raw") (path_of_string name)).

(** The steps of [_main] in order; each is given the value of
    [is_rename] and hands it on. *)
Definition pipeline (env : Env) (config : RunConfig) (repository_dir : Path)
  : list (bool → M bool) :=
  let dry := dry_run config in
  let t := default_timeout_sec config in
  [ (λ b : bool, _filter_history env (src_repository config) (target_dir config)
                          repository_dir dry t;; mret b);
    (λ b : bool, _change_root_directory env repository_dir (target_dir config) dry t;;
          mret b);
    (λ b : bool, _git_commit env repository_dir (git_user_name config)
                      (git_user_email config) "chore: change root directory."
                      dry t;; mret b);
    (λ _ : bool, _git_rename env repository_dir
                      [(path_of_string "index.md", path_of_string "README.md")]
                      dry t);
    (λ b : bool, (if b then _git_commit env repository_dir (git_user_name config)
                                 (git_user_email config)
                                 "chore: change filenames." dry t
           else mret tt);; mret b);
    (λ b : bool, _create_gh_repo_and_set_upstream env repository_dir
            (dst_repository config) "upstream" (is_public config) dry t;;
          mret b);
    (λ b : bool, _git_push env repository_dir "upstream" "master" dry t;; mret b);
    (λ b : bool, (if is_archive config
           then _gh_repo_archive env (dst_repository config) dry t
           else mret tt);; mret b);
    (λ b : bool, (if clean config then rmtree (path_str repository_dir) else mret tt);;
          mret b) ].

Definition run_step (step : bool → M bool) (is_rename : bool) : M bool :=
  step is_rename.

(** ** Reading the outcome of the history-rewrite command *)

(** The command line is [git filter-repo --path <dir>]. *)
Definition filter_args (args : list string) : bool :=
  match args with
  | [a; b; c; _] =>
      String.eqb a "git" && String.eqb b "filter-repo" && String.eqb c "--path"
  | _ => false
  end.

(** The command line is [git mv ...]. *)
Definition move_args (args : list string) : bool :=
  match args with
  | a :: b :: _ => String.eqb a "git" && String.eqb b "mv"
  | _ => false
  end.

Definition is_filter_popen (e : event) : Prop :=
  match e with
  | EvPopen args => Is_true (filter_args args)
  | _ => False
  end.

(** The exit status answered by the first process created for a
    [git filter-repo --path ...] command, if there is one. *)
Fixpoint filter_exit (evs : list event) : option Z :=
  match evs with
  | [] => None
  | EvPopen args :: rest =>
      if filter_args args then
        match rest with
        | EvExited code :: _ => Some code
        | _ => None
        end
      else filter_exit rest
  | _ :: rest => filter_exit rest
  end.

(** The events by which Root Flattening changes the root of the clone:
    a deletion, or a move (logged, or run). *)
Definition flattens (e : event) : Prop :=
  match e with
  | EvRmtree _ => True
  | EvLog _ (MsgCommand args) => Is_true (move_args args)
  | EvPopen args => Is_true (move_args args)
  | _ => False
  end.

(** The environment of [demo_popen], except that the commands recognised
    by [bad] exit with status [code] and touch nothing. *)
Definition failing_demo_popen (bad : list string → bool) (code : Z)
    (args : list string) (w : World) : oserror + (Z → run) :=
  if bad args then inr (λ _, Exits code (w_fs w)) else demo_popen args w.

(** ** Properties of event lists that pass through sequencing *)

(** Every list of events that [m] emits satisfies [P]. *)
Definition traces {A} (P : list event → Prop) (m : M A) : Prop :=
  ∀ w, P (out_events (m w)).

(** [m] hands exactly the commands [cmds] to the Command Runner, in this
    order, and stops at the first one that raises. *)
Definition issues {A} (cmds : list (list string)) (m : M A) : Prop :=
  ∀ w, commands (out_events (m w)) `prefix_of` cmds ∧
       (∀ a, out_res (m w) = Ok a → commands (out_events (m w)) = cmds).

(** In a real run every command that is logged is run, and nothing else
    is. *)
Definition logged_is_spawned (evs : list event) : Prop :=
  commands evs = spawned evs.

(** ** What the logger shows *)

(** The numeric values of [logging.INFO] and [logging.ERROR]. *)
Definition levelno (l : level) : Z :=
  match l with INFO => 20 | ERROR => 40 end.

(** The threshold [_main] computes from the number of [-v] flags:
    ERROR, WARNING, INFO, DEBUG, and DEBUG for anything else. *)
Definition loglevel (verbose : Z) : Z :=
  match verbose with
  | 0 => 40
  | 1 => 30
  | 2 => 20
  | 3 => 10
  | _ => 10
  end.

(** The log entries that pass the logger and its console handler, both
    set to the threshold by [_setup_logger]. *)
Definition shown (config : RunConfig) (e : event) : bool :=
  match e with
  | EvLog l _ => loglevel (verbose config) <=? levelno l
  | _ => false
  end.

Definition displayed (config : RunConfig) (evs : list event) : list event :=
  filter (λ e, shown config e = true) evs.

(** The string has the character ["/"]. *)
Fixpoint has_slash (s : string) : bool :=
  match s with
  | EmptyString => false
  | String c s' => Ascii.eqb c slash || has_slash s'
  end.

(** The string has a backslash. *)
Fixpoint has_backslash (s : string) : bool :=
  match s with
  | EmptyString => false
  | String c s' => Ascii.eqb c backslash || has_backslash s'
  end.

(** The commands of the Commit Step. *)
Definition commit_commands (user_name user_email : option string)
    (message : string) : list (list string) :=
  match user_name with
  | Some n => [["git"; "config"; "--local"; "user.name"; n]]
  | None => []
  end ++
  match user_email with
  | Some m => [["git"; "config"; "--local"; "user.email"; m]]
  | None => []
  end ++
  [["git"; "add"; "."]; ["git"; "commit"; "-m"; message]].

(** A command line is logged at level INFO. *)
Definition command_at_info (e : event) : Prop :=
  match e with
  | EvLog l (MsgCommand _) => l = INFO
  | _ => True
  end.


(** ** What Root Flattening is for *)

(** A name that can be one component of a path: not empty, without a
    slash, and neither [.] nor [..]. *)
Definition plain_name (c : string) : Prop :=
  has_slash c = false ∧ c ≠ "" ∧ c ≠ "." ∧ c ≠ "..".

#[global] Instance plain_name_dec (c : string) : Decision (plain_name c).
Proof. unfold plain_name. apply _. Defined.

(** The root of the clone once it is flattened: the entries of the
    target directory, and [.git]. *)
Definition flattened (root target : gmap string node) : gmap string node :=
  target ∪ filter (λ kv, kv.1 = ".git") root.

(** The name under which the entry [n] of the target directory gets to
    the root in the first pass. *)
Definition moved_name (root_folders : gset string) (n : string) : string :=
  new_name root_folders (mkPath false [n]).

(** ** The commands of a whole run *)

(** What [_main] hands to the Command Runner when every step returns:
    [flat] are the moves of Root Flattening, [renamed] tells whether
    [index.md] was there to be renamed. *)
Definition main_commands (config : RunConfig) (cwd : list string) (name : string)
    (flat : list (list string)) (renamed : bool) : list (list string) :=
  let repository_dir := path_join (path_of_string "data/raw") (path_of_string name) in
  tool_commands ++
  [["gh"; "repo"; "clone"; src_repository config;
    path_str (path_join (mkPath true cwd) repository_dir)];
   ["git"; "filter-repo"; "--path";
    replace_backslash (path_str (target_dir config))]] ++
  flat ++
  commit_commands (git_user_name config) (git_user_email config)
    "chore: change root directory." ++
  (if renamed
   then ["git"; "mv"; "index.md"; "README.md"] ::
        commit_commands (git_user_name config) (git_user_email config)
          "chore: change filenames."
   else []) ++
  [["gh"; "repo"; "create"; dst_repository config;
    if is_public config then "--public" else "--private"];
   ["git"; "remote"; "add"; "upstream";
    "https://github.com/" +:+ dst_repository config +:+ ".git"];
   ["git"; "push"; "upstream"; "master"]] ++
  (if is_archive config
   then [["gh"; "repo"; "archive"; dst_repository config; "-y"]]
   else []).



(** ** The Rename Step, pair by pair *)

(** What the step does with a pair of its map: it skips it, with a log
    entry that names the original path, or hands a rename to the Command
    Runner. *)
Inductive decision :=
| Skipped (src : string)
| Renamed (args : list string).

(** The decisions to be read in a list of events. *)
Definition decisions (evs : list event) : list decision :=
  omap (λ e, match e with
             | EvLog _ (MsgSkip s) => Some (Skipped s)
             | EvLog _ (MsgCommand a) => Some (Renamed a)
             | _ => None
             end) evs.

(** "For each pair: skip (log only) if the original path does not exist
    in the current working tree; otherwise perform a history-preserving
    rename": the pairs in the order of the map, each looked up in the
    working tree as the renames before it have left it. *)
Fixpoint rename_plan (env : Env) (dry_run : bool) (t : Z)
    (names : list (Path * Path)) (w : World) : list decision :=
  match names with
  | [] => []
  | (src, dst) :: rest =>
      match stat w src with
      | inl _ => Skipped (path_str src) :: rename_plan env dry_run t rest w
      | inr _ =>
          let args := ["git"; "mv"; path_str src; path_str dst] in
          Renamed args ::
          rename_plan env dry_run t rest
            (out_world (_run_command env args dry_run t w))
      end
  end.

(** "It returns true if and only if at least one rename was performed":
    when the step returns, its answer is true exactly if a process was
    run for a rename. *)
Definition true_iff_performed (env : Env) (git_directory : Path)
    (names : list (Path * Path)) (dry_run : bool) (t : Z) (w : World) : Prop :=
  let o := _git_rename env git_directory names dry_run t w in
  ∀ b, out_res o = Ok b → (b = true ↔ spawned (out_events o) ≠ []).

(** The clone after Root Flattening: [index.md] is at its root. *)
Definition flat_world : World :=
  mkWorld (Dir {[ "work" := Dir {[ "data" := Dir {[ "raw" := Dir {[ "mono" :=
             Dir {[ ".git" := Dir ∅;
                    "a.txt" := File "a";
                    "index.md" := File "index";
                    "libs" := Dir {[ "c.txt" := File "c" ]} ]} ]} ]} ]} ]})
          ["work"] 0.

(** * Properties *)

(** ** Running computations *)

Lemma bind_run {A B} (m : M A) (f : A → M B) (w : World) :
  (m ≫= f) w =
  match out_res (m w) with
  | Ok a => mkOut (out_events (m w) ++ out_events (f a (out_world (m w))))
                  (out_res (f a (out_world (m w))))
                  (out_world (f a (out_world (m w))))
  | Raise e => mkOut (out_events (m w)) (Raise e) (out_world (m w))
  end.
Proof. reflexivity. Qed.

Lemma run_command_dry (env : Env) (args : list string) (t : Z) (w : World) :
  _run_command env args true t w = mkOut [EvLog INFO (MsgCommand args)] (Ok tt) w.
Proof. reflexivity. Qed.

(** What a call of the Command Runner does when dry-run is off, by the
    answer of the environment. *)
Lemma run_command_real (env : Env) (args : list string) (t : Z) (w : World) :
  _run_command env args false t w =
  match env_popen env args w with
  | inl k => mkOut [EvLog INFO (MsgCommand args); EvPopen args]
                   (Raise (OSError k (hd "" args))) w
  | inr beh =>
      match beh t with
      | Exits code fs' =>
          let w' := mkWorld fs' (w_cwd w) (S (w_spawned w)) in
          if decide (code ≠ 0) then
            mkOut [EvLog INFO (MsgCommand args); EvPopen args; EvExited code; EvKill]
                  (Raise (ScriptError (exit_status_text code))) w'
          else
            mkOut [EvLog INFO (MsgCommand args); EvPopen args; EvExited code;
                   EvLog INFO MsgSuccess] (Ok tt) w'
      | TimesOut fs' =>
          mkOut [EvLog INFO (MsgCommand args); EvPopen args; EvTimedOut; EvKill]
                (Raise (TimeoutExpired args t))
                (mkWorld fs' (w_cwd w) (S (w_spawned w)))
      end
  end.
Proof.
  destruct (env_popen env args w) as [k|beh] eqn:Hp.
  { unfold _run_command, Popen, log, emit, get_world, raise.
    rewrite !bind_run. cbn [out_res out_events out_world]. rewrite Hp.
    reflexivity. }
  unfold _run_command, Popen, log, emit, get_world, raise.
  rewrite !bind_run. cbn [out_res out_events out_world]. rewrite Hp.
  cbn [out_res out_events out_world].
  unfold try_except, communicate, kill, emit, put_fs, raise.
  cbn [proc_run proc_args].
  destruct (beh t) as [code fs'|fs'];
    cbv beta iota zeta delta
      [mbind M_bind mret M_ret out_res out_events out_world app];
    [|reflexivity].
  destruct (decide (code ≠ 0)) as [Hc|Hc]; reflexivity.
Qed.

(** ** The Command Runner *)

(** C3, as the code has it: with dry-run off, a non-zero exit status
    reaches the caller as a [_ScriptError] whose text carries the status;
    a timeout reaches the caller as [subprocess.TimeoutExpired], raised
    again after the process was killed. *)
Theorem run_command_failure_kinds (env : Env) (args : list string) (t : Z)
    (w : World) (beh : Z → run) :
  env_popen env args w = inr beh →
  let o := _run_command env args false t w in
  (∀ code fs', beh t = Exits code fs' → code ≠ 0 →
     out_res o = Raise (ScriptError (exit_status_text code)) ∧
     out_events o =
       [EvLog INFO (MsgCommand args); EvPopen args; EvExited code; EvKill]) ∧
  (∀ fs', beh t = TimesOut fs' →
     out_res o = Raise (TimeoutExpired args t) ∧
     out_events o = [EvLog INFO (MsgCommand args); EvPopen args; EvTimedOut; EvKill]).
Proof.
  intros Hp o. subst o. rewrite run_command_real, Hp. split.
  - intros code fs' -> Hc. by rewrite decide_True.
  - by intros fs' ->.
Qed.

Lemma run_command_failure_kinds_witness :
  out_res (_run_command (plain_env (failing_popen "gh" 1)) ["gh"; "--version"]
                        false 30 fresh_world)
  = Raise (ScriptError "command failed with exit status 1").
Proof.
  apply (proj1 (run_command_failure_kinds (plain_env (failing_popen "gh" 1))
                  ["gh"; "--version"] 30 fresh_world _ eq_refl)
               1 (w_fs fresh_world) eq_refl).
  lia.
Defined.

(** C3, as stated, fails: a process that exceeds its timeout makes
    [subprocess.TimeoutExpired] reach the caller, not [_ScriptError]. *)
Lemma run_command_timeout_not_script_error :
  ¬ single_error_kind (plain_env slow_popen) ["git"; "--version"] 30 fresh_world.
Proof.
  intros H. destruct (H _ eq_refl I) as [msg Hmsg]. discriminate Hmsg.
Qed.

(** ** The Tool Availability Check *)

(** C10: with dry-run on, the check answers true in every environment,
    creates no process and changes nothing: a tool that is not installed
    goes unnoticed. *)
Theorem check_tools_dry_run (env : Env) (t : Z) (w : World) :
  let o := _check_tools env true t w in
  out_res o = Ok true ∧
  spawned (out_events o) = [] ∧
  commands (out_events o) = tool_commands ∧
  out_world o = w.
Proof. done. Qed.

Lemma run_command_tool_errors (env : Env) (args : list string) (dry : bool)
    (t : Z) (w : World) :
  tool_errors (out_events (_run_command env args dry t w)) = [].
Proof.
  destruct dry; [done|]. rewrite run_command_real.
  destruct (env_popen env args w) as [k|beh]; [done|].
  destruct (beh t) as [code fs'|fs']; [|done].
  by destruct (decide (code ≠ 0)).
Qed.

(** A [_ScriptError] of the Command Runner is a non-zero exit status. *)
Lemma run_command_script_error (env : Env) (args : list string) (dry : bool)
    (t : Z) (w : World) (msg : string) :
  out_res (_run_command env args dry t w) = Raise (ScriptError msg) →
  ∃ code, code ≠ 0 ∧ msg = exit_status_text code.
Proof.
  destruct dry; [done|]. rewrite run_command_real.
  destruct (env_popen env args w) as [k|beh]; [done|].
  destruct (beh t) as [code fs'|fs']; [|done].
  destruct (decide (code ≠ 0)); [|done].
  intros [= <-]. eauto.
Qed.

Opaque _run_command.

(** C5, as the code has it: the check answers true exactly when its
    three calls of the Command Runner all return; a [_ScriptError] of a
    call is caught, never passed on, answered by false, and logged once at
    level ERROR with the text "Could not find tool: command failed with
    exit status N", which carries the status and not the tool. *)
Theorem check_tools_result (env : Env) (dry : bool) (t : Z) (w : World) :
  let o := _check_tools env dry t w in
  let inv := invocations env dry t tool_commands w in
  (out_res o = Ok true ↔ all_succeed inv) ∧
  (∀ args r msg,
     (args, r) ∈ inv → out_res r = Raise (ScriptError msg) →
     out_res o = Ok false ∧
     tool_errors (out_events o) = [tool_missing_text msg] ∧
     last (out_events o) = Some (EvLog ERROR (MsgToolMissing msg)) ∧
     ∃ code, code ≠ 0 ∧ msg = exit_status_text code) ∧
  (∀ msg, out_res o ≠ Raise (ScriptError msg)).
Proof.
  intros o inv. subst o inv.
  unfold _check_tools, try_except, tool_commands, all_succeed, invocations.
  rewrite !bind_run.
  pose proof (run_command_tool_errors env ["git"; "--version"] dry t w) as T1.
  pose proof (run_command_script_error env ["git"; "--version"] dry t w) as S1.
  destruct (_run_command env ["git"; "--version"] dry t w) as [e1 [[]|x1] w1];
    simpl in *.
  2:{ destruct x1; simpl; (split; [split; intros [=]|]); (split; [|done]);
      intros a r m; rewrite list_elem_of_singleton; intros [= -> ->] [=]; subst.
      unfold tool_errors in *. rewrite omap_app, T1. simpl.
      rewrite last_snoc. eauto. }
  pose proof (run_command_tool_errors env ["git"; "filter-repo"; "--version"] dry t w1) as T2.
  pose proof (run_command_script_error env ["git"; "filter-repo"; "--version"] dry t w1) as S2.
  destruct (_run_command env ["git"; "filter-repo"; "--version"] dry t w1)
    as [e2 [[]|x2] w2]; simpl in *.
  2:{ destruct x2; simpl; (split; [split; intros [=]|]); (split; [|done]);
      intros a r m; rewrite !elem_of_cons, elem_of_nil;
      intros [[= -> ->]|[[= -> ->]|[]]] [=]; subst.
      unfold tool_errors in *. rewrite !omap_app, T1, T2. simpl.
      rewrite last_snoc. eauto. }
  pose proof (run_command_tool_errors env ["gh"; "--version"] dry t w2) as T3.
  pose proof (run_command_script_error env ["gh"; "--version"] dry t w2) as S3.
  destruct (_run_command env ["gh"; "--version"] dry t w2)
    as [e3 [[]|x3] w3]; simpl in *.
  2:{ destruct x3; simpl; (split; [split; intros [=]|]); (split; [|done]);
      intros a r m; rewrite !elem_of_cons, elem_of_nil;
      intros [[= -> ->]|[[= -> ->]|[[= -> ->]|[]]]] [=]; subst.
      unfold tool_errors in *. rewrite !omap_app, T1, T2, T3. simpl.
      rewrite last_snoc. eauto. }
  split; [done|]. split; [|done].
  intros a r m; rewrite !elem_of_cons, elem_of_nil;
    intros [[= -> ->]|[[= -> ->]|[[= -> ->]|[]]]] [=].
Qed.

Transparent _run_command.

Lemma check_tools_result_witness :
  out_res (_check_tools (plain_env (failing_popen "gh" 1)) false 30 fresh_world)
    = Ok false ∧
  tool_errors (out_events
     (_check_tools (plain_env (failing_popen "gh" 1)) false 30 fresh_world))
    = ["Could not find tool: command failed with exit status 1"].
Proof.
  destruct (proj1 (proj2 (check_tools_result
               (plain_env (failing_popen "gh" 1)) false 30 fresh_world))
             ["gh"; "--version"]
             (_run_command (plain_env (failing_popen "gh" 1)) ["gh"; "--version"]
                false 30 (mkWorld (w_fs fresh_world) ["work"] 2))
             "command failed with exit status 1") as (H1 & H2 & _).
  - apply list_elem_of_In. vm_compute. right; right; left; reflexivity.
  - vm_compute. reflexivity.
  - split; [exact H1 | exact H2].
Defined.

(** C5, as stated, fails: when the hosting CLI exits with status 1 after
    the two other tools succeeded, the error that is logged reads
    "Could not find tool: command failed with exit status 1"; no tool is
    named in it. *)
Lemma check_tools_error_names_no_tool :
  ¬ check_tools_names_tool (plain_env (failing_popen "gh" 1)) false 30 fresh_world.
Proof.
  intros H.
  destruct (H ["gh"; "--version"]
              (_run_command (plain_env (failing_popen "gh" 1)) ["gh"; "--version"]
                 false 30 (mkWorld (w_fs fresh_world) ["work"] 2))
              "command failed with exit status 1") as (_ & text & Ht & Hc).
  - apply list_elem_of_In. vm_compute. right; right; left; reflexivity.
  - vm_compute. reflexivity.
  - apply list_elem_of_In in Ht. vm_compute in Ht.
    destruct Ht as [<-|[]]. vm_compute in Hc. discriminate Hc.
Qed.

(** ** Events a computation can emit *)

Section Emits.
Context (env : Env) (Q : event → Prop).

Lemma emits_ret {A} (a : A) : emits Q (mret a).
Proof. intros w. constructor. Qed.

Lemma emits_raise {A} (e : exn) : emits Q (raise e : M A).
Proof. intros w. constructor. Qed.

Lemma emits_emit (e : event) : Q e → emits Q (emit e).
Proof. intros H w. by repeat constructor. Qed.

Lemma emits_log l m : Q (EvLog l m) → emits Q (log l m).
Proof. apply emits_emit. Qed.

Lemma emits_bind {A B} (m : M A) (f : A → M B) :
  emits Q m → (∀ a, emits Q (f a)) → emits Q (m ≫= f).
Proof.
  intros Hm Hf w. rewrite bind_run. specialize (Hm w).
  destruct (out_res (m w)); simpl; [|done].
  apply Forall_app; split; [done|apply Hf].
Qed.

Lemma emits_try_finally {A} (body : M A) (fin : M unit) :
  emits Q body → emits Q fin → emits Q (try_finally body fin).
Proof. intros Hb Hf w. apply Forall_app; split; [apply Hb|apply Hf]. Qed.

Lemma emits_try_except {A} (body : M A) (handler : exn → option (M A)) :
  emits Q body → (∀ e h, handler e = Some h → emits Q h) →
  emits Q (try_except body handler).
Proof.
  intros Hb Hh w. unfold try_except. specialize (Hb w).
  destruct (out_res (body w)) as [a|e]; [done|].
  destruct (handler e) as [h|] eqn:E; [|done].
  apply Forall_app; split; [done|]. by apply (Hh e).
Qed.

Lemma emits_for_each {A S} (l : list A) (s : S) (body : A → S → M S) :
  (∀ x s, x ∈ l → emits Q (body x s)) → emits Q (for_each l s body).
Proof.
  revert s. induction l as [|x l IH]; intros s H; simpl.
  - apply emits_ret.
  - apply emits_bind; [apply H; left|].
    intros s'. apply IH. intros y s'' Hy. apply H. by right.
Qed.

Lemma emits_get_world : emits Q get_world.
Proof. intros w. constructor. Qed.

Lemma emits_put_fs fs : emits Q (put_fs fs).
Proof. intros w. constructor. Qed.

Lemma emits_put_cwd d : emits Q (put_cwd d).
Proof. intros w. constructor. Qed.

Lemma emits_getcwd : emits Q getcwd.
Proof. intros w. unfold getcwd. by repeat case_match. Qed.

Lemma emits_absolute p : emits Q (absolute p).
Proof.
  unfold absolute. destruct (p_abs p); [apply emits_ret|].
  apply emits_bind; [apply emits_getcwd|intros; apply emits_ret].
Qed.

Lemma emits_chdir p : Q (EvChdir (path_str p)) → emits Q (chdir p).
Proof.
  intros H. unfold chdir. apply emits_bind; [by apply emits_emit|intros _].
  apply emits_bind; [apply emits_get_world|intros w].
  repeat case_match; auto using emits_put_cwd, emits_raise.
Qed.

Lemma emits_iterdir p : emits Q (iterdir env p).
Proof.
  unfold iterdir. apply emits_bind; [apply emits_get_world|intros w].
  repeat case_match; first [apply emits_ret | apply emits_raise].
Qed.

Lemma emits_exists p : emits Q (exists_ p).
Proof.
  unfold exists_. apply emits_bind; [apply emits_get_world|intros w].
  apply emits_ret.
Qed.

Lemma emits_rmtree p : Q (EvRmtree p) → emits Q (rmtree p).
Proof.
  intros H. unfold rmtree. apply emits_bind; [by apply emits_emit|intros _].
  apply emits_bind; [apply emits_get_world|intros w].
  repeat case_match;
    repeat first [apply emits_raise | apply emits_put_fs
                 | apply emits_bind; [|intros ?] ].
Qed.

(** The events of one call of the Command Runner. *)
Lemma emits_run_command args dry t :
  Q (EvLog INFO (MsgCommand args)) →
  (dry = false →
   Q (EvPopen args) ∧ (∀ c, Q (EvExited c)) ∧ Q EvTimedOut ∧ Q EvKill ∧
   Q (EvLog INFO MsgSuccess)) →
  emits Q (_run_command env args dry t).
Proof.
  intros Hl Hr w. destruct dry; [by repeat constructor|].
  destruct (Hr eq_refl) as (? & ? & ? & ? & ?).
  rewrite run_command_real. repeat case_match; by repeat constructor.
Qed.

Lemma emits_working_directory {A} (path : Path) (body : M A) :
  (∀ s, Q (EvChdir s)) → emits Q body → emits Q (_working_directory path body).
Proof.
  intros Hc Hb. unfold _working_directory.
  apply emits_bind; [apply emits_getcwd|intros prev].
  apply emits_bind; [by apply emits_chdir|intros _].
  apply emits_try_finally; [done|by apply emits_chdir].
Qed.

End Emits.

(** Decompose a goal [emits Q m] along the structure of [m]. *)
Ltac emits_handler :=
  let e := fresh "e" in let h := fresh "h" in
  intros e h; destruct e; intros [= <-].

Ltac emits_tac :=
  repeat first
    [ apply emits_ret | apply emits_raise | apply emits_log | apply emits_emit
    | apply emits_getcwd | apply emits_absolute | apply emits_chdir
    | apply emits_iterdir | apply emits_exists | apply emits_rmtree
    | apply emits_run_command | apply emits_working_directory
    | apply emits_try_finally
    | apply emits_try_except; [|emits_handler]
    | apply emits_for_each; intros
    | apply emits_bind; [|intros]
    | match goal with
      | |- emits _ (if ?b then _ else _) => destruct b
      | |- emits _ (match ?x with _ => _ end) => destruct x
      | |- emits _ (let '(_, _) := ?x in _) => destruct x
      end
    | progress unfold _main, _check_tools, _filter_history,
        _change_root_directory, _git_commit, _git_rename, _git_push,
        _create_gh_repo_and_set_upstream, _gh_repo_archive,
        move_target, remove_root, move_back, rename_one ].

(** ** Dry-run *)

Lemma spawned_not_popen (evs : list event) :
  Forall not_popen evs → spawned evs = [].
Proof.
  induction 1 as [|e evs He _ IH]; [done|].
  destruct e; try done; exact IH.
Qed.

(** X2: with dry-run on, the whole pipeline asks for no process, whatever the
    environment and the files are. *)
Lemma main_dry_run_spawns_nothing (env : Env) (config : RunConfig) (w : World) :
  dry_run config = true → spawned (out_events (_main env config w)) = [].
Proof.
  intros Hd. apply spawned_not_popen.
  cut (emits not_popen (_main env config)); [intros H; apply H|].
  emits_tac; simpl; try done; rewrite Hd; done.
Qed.

(** C1 does not hold of the code: the deletions of the Root Flattening
    step are not guarded by the dry-run flag.  A dry run started where a
    clone is left from an earlier run creates no process, but it hands the
    root entry [libs] of that clone to [shutil.rmtree] and the files below
    it are gone afterwards. *)
Theorem dry_run_deletes_root_entries :
  let o := _main demo_env (demo_config true) stale_world in
  out_res o = Ok tt ∧
  spawned (out_events o) = [] ∧
  rmtrees (out_events o) = ["libs"] ∧
  lookup_path ["work"; "data"; "raw"; "mono"; "libs"; "widget"; "a.txt"]
              (w_fs stale_world) = Some (File "a") ∧
  lookup_path ["work"; "data"; "raw"; "mono"; "libs"]
              (w_fs (out_world o)) = None.
Proof. vm_compute. repeat split. Qed.

(** ** The working directory is restored *)

Lemma chdir_fs (p : Path) (w : World) : w_fs (out_world (chdir p w)) = w_fs w.
Proof.
  unfold chdir, emit, get_world, put_cwd, raise, mbind, M_bind; simpl.
  by repeat case_match.
Qed.


Lemma chdir_back (d : list string) (w : World) :
  dir_reachable (w_fs w) d →
  chdir (mkPath true d) w =
  mkOut [EvChdir (path_str (mkPath true d))] (Ok tt)
        (mkWorld (w_fs w) d (w_spawned w)).
Proof.
  intros [Hw [m Hm]].
  unfold chdir, emit, get_world, put_cwd, raise, mbind, M_bind, stat; simpl.
  by rewrite Hw, Hm.
Qed.

Lemma getcwd_run (w : World) :
  getcwd w = mkOut [] (Ok (mkPath true (w_cwd w))) w ∨
  ∃ e, getcwd w = mkOut [] (Raise e) w.
Proof. unfold getcwd. repeat case_match; eauto. Qed.

Lemma absolute_run (p : Path) (w : World) :
  out_events (absolute p w) = [] ∧ out_world (absolute p w) = w.
Proof.
  unfold absolute. destruct (p_abs p); [done|].
  rewrite bind_run. by destruct (getcwd_run w) as [->|[e ->]].
Qed.

Lemma run_command_cwd (env : Env) (args : list string) (dry : bool) (t : Z)
    (w : World) :
  w_cwd (out_world (_run_command env args dry t w)) = w_cwd w.
Proof.
  destruct dry; [done|]. rewrite run_command_real. by repeat case_match.
Qed.







Lemma chdir_events (p : Path) (w : World) :
  out_events (chdir p w) = [EvChdir (path_str p)].
Proof.
  unfold chdir, emit, get_world, put_cwd, raise, mbind, M_bind; simpl.
  by repeat case_match.
Qed.

Lemma chdir_enter (p : Path) (w : World) (q : list string) (m : gmap string node) :
  stat w p = inr (q, Dir m) →
  chdir p w = mkOut [EvChdir (path_str p)] (Ok tt)
                    (mkWorld (w_fs w) q (w_spawned w)).
Proof.
  intros H. unfold chdir, emit, get_world, put_cwd, raise, mbind, M_bind; simpl.
  by rewrite H.
Qed.

Lemma chdir_cases (p : Path) (w : World) :
  (∃ q m, stat w p = inr (q, Dir m)) ∨
  (∃ e, chdir p w = mkOut [EvChdir (path_str p)] (Raise e) w).
Proof.
  unfold chdir, emit, get_world, put_cwd, raise, mbind, M_bind; simpl.
  destruct (stat w p) as [k|[q [d|m]]]; eauto.
Qed.

Lemma getcwd_cases (w : World) :
  ((∃ m, lookup_path (w_cwd w) (w_fs w) = Some (Dir m)) ∧
   getcwd w = mkOut [] (Ok (mkPath true (w_cwd w))) w) ∨
  ((¬ ∃ m, lookup_path (w_cwd w) (w_fs w) = Some (Dir m)) ∧
   ∃ e, getcwd w = mkOut [] (Raise e) w).
Proof.
  unfold getcwd. destruct (lookup_path (w_cwd w) (w_fs w)) as [[d|m]|];
    [right|left|right]; split; eauto; by intros [? ?].
Qed.

Lemma rmtree_events (p : string) (w : World) :
  out_events (rmtree p w) = [EvRmtree p].
Proof.
  unfold rmtree, emit, get_world, put_fs, raise, mbind, M_bind; simpl.
  by repeat case_match.
Qed.

(** Listing a directory emits nothing and changes nothing. *)
Lemma iterdir_run (env : Env) (p : Path) (w : World) :
  iterdir env p w =
  match stat w p with
  | inr (_, Dir m) =>
      mkOut [] (Ok ((λ n, path_join p (mkPath false [n])) <$>
                      env_scandir env (map_to_list m).*1)) w
  | inr (_, File _) => mkOut [] (Raise (OSError ENOTDIR (path_str p))) w
  | inl k => mkOut [] (Raise (OSError k (path_str p))) w
  end.
Proof.
  unfold iterdir, get_world, raise, mbind, M_bind, mret, M_ret; simpl.
  by destruct (stat w p) as [k|[q [d|m]]].
Qed.

Lemma absolute_cases (p : Path) (w : World) :
  (∃ dir, absolute p w = mkOut [] (Ok dir) w) ∨
  (∃ e, absolute p w = mkOut [] (Raise e) w).
Proof.
  unfold absolute. destruct (p_abs p); [left; by eexists|].
  rewrite bind_run. destruct (getcwd_run w) as [->|[e ->]]; simpl; eauto.
Qed.

Lemma run_command_rmtrees (env : Env) (args : list string) (dry : bool)
    (t : Z) (w : World) :
  rmtrees (out_events (_run_command env args dry t w)) = [].
Proof.
  destruct dry; [done|]. rewrite run_command_real. by repeat case_match.
Qed.

(** From here on the library calls and the Command Runner are used
    through the lemmas above only. *)
Opaque _run_command chdir rmtree getcwd absolute iterdir.

(** The context manager, step by step: either the directory cannot be
    entered, and nothing but the attempt happens; or the body runs in
    it, and the way back is taken whatever the body did. *)
Lemma working_directory_cases {A} (path : Path) (body : M A) (w : World) :
  (∃ lead e, Forall is_chdir lead ∧
     ((¬ ∃ m, lookup_path (w_cwd w) (w_fs w) = Some (Dir m)) ∨
      (¬ ∃ q m, stat w path = inr (q, Dir m))) ∧
     _working_directory path body w = mkOut lead (Raise e) w) ∨
  (∃ q m, stat w path = inr (q, Dir m) ∧
     let b := body (mkWorld (w_fs w) q (w_spawned w)) in
     let f := chdir (mkPath true (w_cwd w)) (out_world b) in
     _working_directory path body w =
     mkOut (EvChdir (path_str path) :: out_events b ++ out_events f)
           (match out_res f with Ok _ => out_res b | Raise e => Raise e end)
           (out_world f)).
Proof.
  unfold _working_directory. rewrite bind_run.
  destruct (getcwd_cases w) as [[_ ->]|[Hn [e ->]]]; simpl.
  2:{ left. exists [], e. split; [done|]. split; [by left|done]. }
  rewrite bind_run.
  destruct (stat w path) as [k|[q [d|m]]] eqn:Hs.
  3:{ right. exists q, m. split; [done|]. by rewrite (chdir_enter _ _ _ _ Hs). }
  all: left; destruct (chdir_cases path w) as [(q' & m' & H)|[e ->]];
    [rewrite Hs in H; discriminate|];
    exists [EvChdir (path_str path)], e; split; [by repeat constructor|];
    (split; [right; by intros (? & ? & ?)|done]).
Qed.

Opaque _working_directory.

(** ** The Rename Step *)

Lemma run_command_commands (env : Env) (args : list string) (dry : bool)
    (t : Z) (w : World) :
  commands (out_events (_run_command env args dry t w)) = [args].
Proof.
  destruct dry; [done|]. rewrite run_command_real. by repeat case_match.
Qed.

(** A command that returns was run to a zero exit status, if dry-run is
    off. *)
Lemma run_command_spawned (env : Env) (args : list string) (t : Z) (w : World) :
  spawned (out_events (_run_command env args false t w)) = [args].
Proof. rewrite run_command_real. by repeat case_match. Qed.

(** A pair whose original path is absent is skipped: one log entry, no
    exception, and [is_rename] is left as it was. *)
Lemma rename_one_absent (env : Env) (dry : bool) (t : Z) (src dst : Path)
    (is_rename : bool) (w : World) (k : oserror) :
  stat w src = inl k →
  rename_one env dry t (src, dst) is_rename w =
  mkOut [EvLog INFO (MsgSkip (path_str src))] (Ok is_rename) w.
Proof.
  intros H. unfold rename_one, exists_, get_world, log, emit, mbind, M_bind,
    mret, M_ret; simpl. by rewrite H.
Qed.

Lemma rename_one_present (env : Env) (dry : bool) (t : Z) (src dst : Path)
    (is_rename : bool) (w : World) (q : list string) (n : node) :
  stat w src = inr (q, n) →
  rename_one env dry t (src, dst) is_rename w =
  (_run_command env ["git"; "mv"; path_str src; path_str dst] dry t;; mret true) w.
Proof.
  intros H. unfold rename_one, exists_, get_world.
  rewrite !bind_run. simpl. rewrite H. simpl.
  rewrite bind_run.
  by destruct (_run_command env ["git"; "mv"; path_str src; path_str dst] dry t w)
    as [ev [[]|e] w'].
Qed.

Lemma for_each_cons {A S} (x : A) (l : list A) (s : S) (body : A → S → M S)
    (w : World) :
  for_each (x :: l) s body w = (body x s ≫= λ s', for_each l s' body) w.
Proof. reflexivity. Qed.

(** The loop of the Rename Step: when it ends without exception, the
    flag is set exactly if a command was handed to the Command Runner. *)
Lemma rename_loop_flag (env : Env) (dry : bool) (t : Z)
    (names : list (Path * Path)) (b0 : bool) (w : World) (b : bool) :
  out_res (for_each names b0 (rename_one env dry t) w) = Ok b →
  b = b0 || bool_decide (commands (out_events
             (for_each names b0 (rename_one env dry t) w)) ≠ []).
Proof.
  revert b0 w. induction names as [|[src dst] names IH]; intros b0 w.
  - intros [= <-]. by rewrite orb_false_r.
  - rewrite for_each_cons, bind_run.
    destruct (stat w src) as [k|[q n]] eqn:E.
    + rewrite (rename_one_absent _ _ _ _ _ _ _ _ E).
      cbn [out_res out_events out_world]. intros H. by apply IH.
    + rewrite (rename_one_present _ _ _ _ _ _ _ _ _ E), bind_run.
      pose proof (run_command_commands env
                    ["git"; "mv"; path_str src; path_str dst] dry t w) as Hc.
      destruct (_run_command env ["git"; "mv"; path_str src; path_str dst] dry t w)
        as [ev [[]|e] w']; simpl in *; [|done].
      intros H. apply IH in H. rewrite H.
      unfold commands in *. rewrite !omap_app, Hc.
      by rewrite orb_true_r.
Qed.

Lemma commands_chdir (evs : list event) : Forall is_chdir evs → commands evs = [].
Proof.
  induction 1 as [|e evs He _ IH]; [done|]. destruct e; try done; exact IH.
Qed.

Lemma rename_loop_all_absent (env : Env) (dry : bool) (t : Z)
    (names : list (Path * Path)) (b0 : bool) (w : World) :
  (∀ src dst, (src, dst) ∈ names → ∃ k, stat w src = inl k) →
  for_each names b0 (rename_one env dry t) w =
  mkOut ((λ x, EvLog INFO (MsgSkip (path_str x.1))) <$> names) (Ok b0) w.
Proof.
  induction names as [|[src dst] names IH]; intros H; [done|].
  rewrite for_each_cons, bind_run.
  destruct (H src dst) as [k Hk]; [left|].
  rewrite (rename_one_absent _ _ _ _ _ _ _ _ Hk). simpl.
  rewrite IH; [done|]. intros s d Hin. apply (H s d). by right.
Qed.

(** ** Root Flattening: the order of the passes *)

Lemma commands_app (l1 l2 : list event) :
  commands (l1 ++ l2) = commands l1 ++ commands l2.
Proof. apply omap_app. Qed.

Lemma rmtrees_app (l1 l2 : list event) :
  rmtrees (l1 ++ l2) = rmtrees l1 ++ rmtrees l2.
Proof. apply omap_app. Qed.

Lemma spawned_app (l1 l2 : list event) :
  spawned (l1 ++ l2) = spawned l1 ++ spawned l2.
Proof. apply omap_app. Qed.

Lemma rmtrees_chdir (evs : list event) : Forall is_chdir evs → rmtrees evs = [].
Proof.
  induction 1 as [|e evs He _ IH]; [done|]. destruct e; try done; exact IH.
Qed.

Lemma move_target_run (env : Env) (roots : gset string) (dry : bool) (t : Z)
    (f : Path) (skip : list (string * string)) (w : World) :
  let r := _run_command env ["git"; "mv"; path_str f; new_name roots f] dry t w in
  move_target env roots dry t f skip w =
  mkOut ([EvLog INFO (MsgMove (path_str f) (new_name roots f))] ++ out_events r)
        (match out_res r with
         | Ok _ => Ok (skip ++ collisions roots [f])
         | Raise e => Raise e
         end)
        (out_world r).
Proof.
  unfold move_target, new_name, collisions, log, emit. rewrite !bind_run. simpl.
  destruct (bool_decide (path_name f ∈ roots)); simpl;
    destruct (_run_command env _ dry t w) as [ev [[]|e] w']; simpl;
    by rewrite ?app_nil_r.
Qed.

Lemma collisions_cons (roots : gset string) (f : Path) (fs : list Path) :
  collisions roots (f :: fs) = collisions roots [f] ++ collisions roots fs.
Proof.
  unfold collisions. simpl. by destruct (bool_decide (path_name f ∈ roots)).
Qed.

Lemma first_pass (env : Env) (roots : gset string) (dry : bool) (t : Z)
    (targets : list Path) (skip : list (string * string)) (w : World) :
  let o := for_each targets skip (move_target env roots dry t) w in
  rmtrees (out_events o) = [] ∧
  commands (out_events o) `prefix_of` first_moves roots targets ∧
  (∀ skip', out_res o = Ok skip' →
     commands (out_events o) = first_moves roots targets ∧
     skip' = skip ++ collisions roots targets).
Proof.
  revert skip w. induction targets as [|f targets IH]; intros skip w.
  - simpl. split; [done|]. split; [done|]. intros ? [= <-].
    by rewrite app_nil_r.
  - cbn zeta. rewrite for_each_cons, bind_run, move_target_run.
    pose proof (run_command_rmtrees env
                  ["git"; "mv"; path_str f; new_name roots f] dry t w) as Hr.
    pose proof (run_command_commands env
                  ["git"; "mv"; path_str f; new_name roots f] dry t w) as Hc.
    destruct (_run_command env _ dry t w) as [ev [[]|e] w'];
      cbn [out_events out_res out_world] in *.
    + destruct (IH (skip ++ collisions roots [f]) w') as (I1 & I2 & I3).
      rewrite !rmtrees_app, !commands_app, Hr, Hc, I1.
      split; [done|]. split; [by apply prefix_cons|].
      intros skip' H. destruct (I3 _ H) as [-> ->]. split; [done|].
      by rewrite (collisions_cons roots f targets), <- app_assoc.
    + rewrite !rmtrees_app, !commands_app, Hr, Hc.
      split; [done|]. split; [|done]. apply prefix_cons, prefix_nil.
Qed.

Lemma remove_root_run (old_path : string) (w : World) :
  remove_root old_path tt w =
  if String.eqb old_path ".git" then mkOut [] (Ok tt) w
  else mkOut ([EvLog INFO (MsgRemove old_path)] ++ out_events (rmtree old_path w))
             (out_res (rmtree old_path w)) (out_world (rmtree old_path w)).
Proof.
  unfold remove_root. destruct (String.eqb old_path ".git"); [done|].
  unfold log, emit. rewrite bind_run. simpl.
  by destruct (rmtree old_path w) as [ev [[]|e] w'].
Qed.

Lemma deletion_pass (names : list string) (w : World) :
  let o := for_each names tt remove_root w in
  commands (out_events o) = [] ∧
  rmtrees (out_events o) `prefix_of` filter (λ n, n ≠ ".git") names ∧
  (out_res o = Ok tt → rmtrees (out_events o) = filter (λ n, n ≠ ".git") names).
Proof.
  revert w. induction names as [|n names IH]; intros w; [done|].
  cbn zeta. rewrite for_each_cons, bind_run, remove_root_run.
  destruct (String.eqb_spec n ".git") as [->|Hn].
  - rewrite filter_cons_False by (intros H; by apply H). apply IH.
  - rewrite filter_cons_True by done.
    pose proof (rmtree_events n w) as Hr.
    destruct (rmtree n w) as [ev [[]|e] w'];
      cbn [out_events out_res out_world] in *; subst ev.
    + destruct (IH w') as (I1 & I2 & I3).
      rewrite !rmtrees_app, !commands_app, I1.
      split; [done|]. split; [by apply prefix_cons|].
      intros H. by rewrite I3.
    + split; [done|]. split; [|done]. apply prefix_cons, prefix_nil.
Qed.

Lemma move_back_run (env : Env) (dry : bool) (t : Z) (old new : string)
    (w : World) :
  let r := _run_command env ["git"; "mv"; old; new] dry t w in
  move_back env dry t (old, new) tt w =
  mkOut ([EvLog INFO (MsgMove old new)] ++ out_events r) (out_res r) (out_world r).
Proof.
  unfold move_back, log, emit. rewrite bind_run. simpl.
  by destruct (_run_command env _ dry t w) as [ev [[]|e] w'].
Qed.

Lemma last_pass (env : Env) (dry : bool) (t : Z) (pairs : list (string * string))
    (w : World) :
  let o := for_each pairs tt (move_back env dry t) w in
  rmtrees (out_events o) = [] ∧
  commands (out_events o) `prefix_of` (λ p, ["git"; "mv"; p.1; p.2]) <$> pairs ∧
  (out_res o = Ok tt →
   commands (out_events o) = (λ p, ["git"; "mv"; p.1; p.2]) <$> pairs).
Proof.
  revert w. induction pairs as [|[old new] pairs IH]; intros w; [done|].
  cbn zeta. rewrite for_each_cons, bind_run, move_back_run.
  pose proof (run_command_rmtrees env ["git"; "mv"; old; new] dry t w) as Hr.
  pose proof (run_command_commands env ["git"; "mv"; old; new] dry t w) as Hc.
  destruct (_run_command env _ dry t w) as [ev [[]|e] w'];
    cbn [out_events out_res out_world] in *.
  - destruct (IH w') as (I1 & I2 & I3).
    rewrite !rmtrees_app, !commands_app, Hr, Hc, I1.
    split; [done|]. split; [by apply prefix_cons|]. intros H. by rewrite I3.
  - rewrite !rmtrees_app, !commands_app, Hr, Hc.
    split; [done|]. split; [|done]. apply prefix_cons, prefix_nil.
Qed.

(** The names found at the root of the clone are its entries. *)
Lemma root_names (env : Env) (m : gmap string node) :
  list_to_set (path_name <$> ((λ n, path_join (mkPath false []) (mkPath false [n]))
                                <$> env_scandir env (map_to_list m).*1))
  = dom m.
Proof.
  assert (∀ l : list string,
            path_name <$> ((λ n, path_join (mkPath false []) (mkPath false [n]))
                             <$> l) = l) as ->.
  { induction l as [|n l IH]; [done|]. by rewrite !fmap_cons, IH. }
  rewrite (env_scandir_perm env).
  apply set_eq. intros n. rewrite elem_of_list_to_set, elem_of_dom.
  rewrite list_elem_of_fmap. split.
  - intros [[k x] [-> Hx]]. apply elem_of_map_to_list in Hx. by eexists.
  - intros [x Hx]. exists (n, x). split; [done|]. by apply elem_of_map_to_list.
Qed.

Lemma deletions_spec (env : Env) (roots : gset string) (n : string) :
  n ∈ deletions env roots ↔ n ∈ roots ∧ n ≠ ".git".
Proof.
  unfold deletions. rewrite list_elem_of_filter, (env_set_iter_perm env).
  rewrite elem_of_elements. tauto.
Qed.

(** X1: in every execution of Root Flattening that gets to its loops,
    the events are those of three passes in this order: the moves of the
    target entries, which delete nothing; then the deletions, which
    begin only when a move was issued for every target entry and are
    handed exactly the root entries other than [.git]; then the renames
    from the temporary names, which begin only when every deletion was
    issued.  An execution that does not get to its loops only changes
    directory. *)
Theorem root_flattening_order (env : Env) (clone_dir target_dir : Path)
    (dry : bool) (t : Z) (w : World) :
  let o := _change_root_directory env clone_dir target_dir dry t w in
  (Forall is_chdir (out_events o) ∧ ∃ e, out_res o = Raise e) ∨
  ∃ dir q m target_files E1 E2 E3 trail,
    out_res (absolute clone_dir w) = Ok dir ∧
    stat w dir = inr (q, Dir m) ∧
    out_res (iterdir env target_dir (mkWorld (w_fs w) q (w_spawned w)))
      = Ok target_files ∧
    out_events o = [EvChdir (path_str dir)] ++ E1 ++ E2 ++ E3 ++ trail ∧
    Forall is_chdir trail ∧
    passes_in_order env (dom m) target_files E1 E2 E3 (out_res o = Ok tt) ∧
    (∀ n, n ∈ deletions env (dom m) ↔ n ∈ dom m ∧ n ≠ ".git").
Proof.
  cbn zeta. unfold _change_root_directory. rewrite bind_run.
  destruct (absolute_cases clone_dir w) as [[dir Ha]|[e ->]]; rewrite ?Ha;
    cbn [out_events out_res out_world].
  2:{ left. split; [constructor|by eexists]. }
  match goal with |- context [_working_directory dir ?b w] =>
    destruct (working_directory_cases dir b w)
      as [(lead & e & Hl & _ & ->)|(q & m & Hs & ->)] end;
    cbn [out_events out_res out_world].
  { left. split; [done|by eexists]. }
  set (w1 := mkWorld (w_fs w) q (w_spawned w)).
  assert (Hroot : stat w1 (mkPath false []) = inr (q, Dir m)).
  { unfold stat in *. simpl.
    destruct (walk (w_fs w) _ (p_parts dir)) as [k|q']; [done|].
    destruct (lookup_path q' (w_fs w)) as [n|] eqn:E; [|done].
    injection Hs as -> ->. by rewrite E. }
  rewrite bind_run, iterdir_run, Hroot. cbn [out_events out_res out_world].
  rewrite root_names, bind_run.
  assert (Hback : ∀ w', Forall is_chdir
            (out_events (chdir (mkPath true (w_cwd w)) w'))).
  { intros w'. rewrite chdir_events. by repeat constructor. }
  destruct (out_res (iterdir env target_dir w1)) as [targets|e] eqn:Ht.
  2:{ left. rewrite iterdir_run in *. destruct (stat w1 target_dir) as [k|[? []]];
        simpl in *; try done.
      all: split; [by constructor|]; case_match; by eexists. }
  assert (out_events (iterdir env target_dir w1) = [] ∧
          out_world (iterdir env target_dir w1) = w1) as [-> ->].
  { rewrite iterdir_run. by destruct (stat w1 target_dir) as [k|[? []]]. }
  cbn [app]. rewrite bind_run.
  pose proof (first_pass env (dom m) dry t targets [] w1) as (F1 & F2 & F3).
  cbn zeta in *.
  set (p1 := for_each targets [] (move_target env (dom m) dry t) w1) in *.
  right. exists dir, q, m, targets.
  destruct (out_res p1) as [skip|e] eqn:R1; cbn [out_events out_res out_world].
  2:{ (* the first pass stopped: nothing is deleted *)
      exists (out_events p1), [], [], (out_events (chdir (mkPath true (w_cwd w))
                                                   (out_world p1))).
      unfold passes_in_order.
      split_and!; try done; try apply prefix_nil; try apply deletions_spec;
        try (by rewrite <- ?app_assoc).
      all: intros H; exfalso; revert H; by case_match. }
  destruct (F3 _ eq_refl) as [F4 ->]. rewrite app_nil_l, bind_run.
  pose proof (deletion_pass (env_set_iter env (elements (dom m))) (out_world p1))
    as (D1 & D2 & D3). cbn zeta in *.
  set (p2 := for_each (env_set_iter env (elements (dom m))) () remove_root
               (out_world p1)) in *.
  pose proof (last_pass env dry t (collisions (dom m) targets) (out_world p2))
    as (L1 & L2 & L3). cbn zeta in *.
  set (p3 := for_each (collisions (dom m) targets) () (move_back env dry t)
               (out_world p2)) in *.
  destruct (out_res p2) as [[]|e] eqn:R2; cbn [out_events out_res out_world].
  2:{ (* a deletion failed: no rename follows *)
      exists (out_events p1), (out_events p2), [],
        (out_events (chdir (mkPath true (w_cwd w)) (out_world p2))).
      unfold passes_in_order.
      split_and!; try done; try apply prefix_nil; try apply deletions_spec;
        try (by rewrite <- ?app_assoc).
      all: intros H; exfalso; revert H; by case_match. }
  exists (out_events p1), (out_events p2), (out_events p3),
    (out_events (chdir (mkPath true (w_cwd w)) (out_world p3))).
  specialize (D3 eq_refl).
  unfold passes_in_order.
  split_and!; try done; try apply deletions_spec;
    try (by rewrite <- ?app_assoc).
  destruct (out_res (chdir _ _)); [|done]. intros H. by rewrite L3.
Qed.

(** ** A failing step ends the pipeline *)

Lemma bind_assoc {A B C} (m : M A) (f : A → M B) (g : B → M C) (w : World) :
  ((m ≫= f) ≫= g) w = (m ≫= λ a, f a ≫= g) w.
Proof.
  rewrite !bind_run. destruct (out_res (m w)) as [a|e]; simpl; [|done].
  rewrite !bind_run. destruct (out_res (f a _)) as [b|e]; simpl; [|done].
  by rewrite app_assoc.
Qed.

(** A step that raises is the last one: the steps after it add no event
    and change nothing. *)
Lemma for_each_abort {A S} (done_ later : list A) (x : A) (s : S)
    (body : A → S → M S) (w : World) (s1 : S) (e : exn) :
  let o1 := for_each done_ s body w in
  out_res o1 = Ok s1 →
  out_res (body x s1 (out_world o1)) = Raise e →
  for_each (done_ ++ x :: later) s body w =
  mkOut (out_events o1 ++ out_events (body x s1 (out_world o1)))
        (Raise e)
        (out_world (body x s1 (out_world o1))).
Proof.
  revert s w. induction done_ as [|y done_ IH]; intros s w; cbn zeta.
  - intros [= <-] Hx. simpl in *. rewrite bind_run, Hx. done.
  - rewrite !for_each_cons, !bind_run.
    destruct (out_res (body y s w)) as [s'|e'] eqn:E; simpl; [|done].
    intros H1 Hx. rewrite bind_run, E. simpl.
    rewrite (IH s' _ H1 Hx). simpl. by rewrite app_assoc.
Qed.

Lemma filter_exit_skip (l1 l2 : list event) :
  Forall (λ e, ¬ is_filter_popen e) l1 →
  filter_exit (l1 ++ l2) = filter_exit l2.
Proof.
  induction 1 as [|e l1 He _ IH]; [done|].
  destruct e as [| args | | | | |]; simpl in *; try done.
  by destruct (filter_args args).
Qed.

Lemma filter_exit_none (l : list event) :
  Forall (λ e, ¬ is_filter_popen e) l → filter_exit l = None.
Proof.
  intros H. rewrite <- (app_nil_r l). by rewrite filter_exit_skip.
Qed.

(** The history-rewrite command itself: if its process answered a
    non-zero status, the Command Runner raised. *)
Lemma run_filter_exit (env : Env) (args : list string) (dry : bool) (t : Z)
    (w : World) (rest : list event) (c : Z) :
  filter_args args = true →
  Forall (λ e, ¬ is_filter_popen e) rest →
  filter_exit (out_events (_run_command env args dry t w) ++ rest) = Some c →
  c ≠ 0 →
  ∃ e, out_res (_run_command env args dry t w) = Raise e.
Proof.
  intros Ha Hrest. destruct dry.
  - rewrite run_command_dry. simpl. by rewrite filter_exit_none.
  - rewrite run_command_real. repeat case_match; simpl; rewrite ?Ha; eauto.
    by intros [= <-].
Qed.

Lemma emits_run_command_plain (env : Env) (Q : event → Prop)
    (args : list string) (dry : bool) (t : Z) :
  Q (EvLog INFO (MsgCommand args)) → Q (EvPopen args) →
  (∀ c, Q (EvExited c)) → Q EvTimedOut → Q EvKill → Q (EvLog INFO MsgSuccess) →
  emits Q (_run_command env args dry t).
Proof. intros. by apply emits_run_command. Qed.

(** Up to the tool check nothing is moved, deleted or rewritten. *)
Lemma emits_prelude (env : Env) (config : RunConfig) :
  emits (λ e, ¬ is_filter_popen e ∧ ¬ flattens e) (prelude env config).
Proof.
  unfold prelude. emits_tac; simpl; try tauto; repeat split; tauto.
Qed.

Lemma emits_filter_history (env : Env) (src : string) (target clone : Path)
    (dry : bool) (t : Z) :
  emits (λ e, ¬ flattens e) (_filter_history env src target clone dry t).
Proof. emits_tac; simpl; try tauto; repeat split; tauto. Qed.

(** No step after the History Filter step runs [git filter-repo]. *)
Lemma emits_later_steps (env : Env) (config : RunConfig) (repo : Path) :
  Forall (λ step : bool → M bool, ∀ b, emits (λ e, ¬ is_filter_popen e) (step b))
         (tail (pipeline env config repo)).
Proof.
  repeat constructor; intros b; emits_tac; simpl; try tauto; repeat split; tauto.
Qed.

(** From here on the steps are used through their lemmas only. *)
Opaque _check_tools _filter_history _change_root_directory _git_commit
  _git_rename _git_push _create_gh_repo_and_set_upstream _gh_repo_archive.

Lemma bind_ext {A B} (m : M A) (f g : A → M B) (w : World) :
  (∀ a w', f a w' = g a w') → (m ≫= f) w = (m ≫= g) w.
Proof.
  intros H. rewrite !bind_run. destruct (out_res (m w)); [|done].
  by rewrite H.
Qed.

Lemma ret_bind {A B} (a : A) (f : A → M B) (w : World) :
  (mret a ≫= f) w = f a w.
Proof. rewrite bind_run. simpl. by destruct (f a w). Qed.

Lemma bind_ret_tt (m : M unit) (w : World) : (m ≫= λ _, mret tt) w = m w.
Proof.
  rewrite bind_run. destruct (m w) as [ev [[]|e] w']; simpl; [|done].
  by rewrite app_nil_r.
Qed.

(** [_main] is its prelude followed by the steps of the pipeline, in
    order. *)
Lemma main_as_pipeline (env : Env) (config : RunConfig) (w : World) :
  _main env config w =
  (repo ← prelude env config;
   for_each (pipeline env config repo) false run_step;; mret tt) w.
Proof.
  unfold _main, prelude.
  rewrite bind_assoc. apply bind_ext. intros _ w1.
  rewrite bind_assoc. apply bind_ext. intros name w2.
  rewrite bind_assoc. apply bind_ext. intros is_tools w3.
  destruct (negb is_tools); [done|]. rewrite ret_bind.
  unfold pipeline, run_step. cbn [for_each].
  do 3 (rewrite !bind_assoc; apply bind_ext; intros _ ?; rewrite ret_bind).
  rewrite !bind_assoc; apply bind_ext; intros is_rename ?.
  do 4 (rewrite !bind_assoc; apply bind_ext; intros _ ?; rewrite ?ret_bind).
  rewrite <- bind_ret_tt at 1. rewrite !bind_assoc.
  apply bind_ext. intros _ ?. by rewrite !ret_bind.
Qed.

Transparent _filter_history.

(** The History Filter step: if the process of the history-rewrite
    command answered a non-zero status, the step raised. *)
Lemma filter_history_exit (env : Env) (src : string) (target clone : Path)
    (dry : bool) (t : Z) (w : World) (rest : list event) (c : Z) :
  let o := _filter_history env src target clone dry t w in
  Forall (λ e, ¬ is_filter_popen e) rest →
  filter_exit (out_events o ++ rest) = Some c →
  c ≠ 0 →
  ∃ e, out_res o = Raise e.
Proof.
  cbn zeta. intros Hrest. unfold _filter_history. rewrite bind_run.
  destruct (absolute_cases clone w) as [[dir ->]|[e ->]];
    cbn [out_events out_res out_world]; [|by eauto].
  rewrite bind_run.
  pose proof (emits_run_command_plain env (λ e, ¬ is_filter_popen e)
                ["gh"; "repo"; "clone"; src; path_str dir] dry t) as H1.
  specialize (H1 (λ x, x) (λ x, x) (λ _ x, x) (λ x, x) (λ x, x) (λ x, x) w).
  destruct (_run_command env ["gh"; "repo"; "clone"; src; path_str dir] dry t w)
    as [ev1 [[]|e] w1]; cbn [out_events out_res out_world] in *; [|by eauto].
  rewrite bind_run.
  destruct (absolute_cases clone w1) as [[dir' ->]|[e ->]];
    cbn [out_events out_res out_world]; [|by eauto].
  match goal with |- context [_working_directory dir' ?b w1] =>
    destruct (working_directory_cases dir' b w1)
      as [(lead & e & Hl & _ & ->)|(q & m & Hs & ->)] end;
    cbn [out_events out_res out_world]; [by eauto|].
  set (w2 := mkWorld (w_fs w1) q (w_spawned w1)).
  set (r := _run_command env _ dry t w2).
  set (f := chdir _ (out_world r)).
  intros Hexit Hc.
  destruct (out_res f) eqn:Ef; [|by eauto].
  apply (run_filter_exit env _ dry t w2 (out_events f ++ rest) c); try done.
  - apply Forall_app. split; [|done]. subst f. rewrite chdir_events.
    constructor; [intros []|constructor].
  - revert Hexit. cbn [app]. rewrite <- !app_assoc.
    rewrite (filter_exit_skip ev1) by done. cbn [app filter_exit].
    by rewrite <- !app_assoc.
Qed.

Opaque _filter_history.

(** [_main], cut after the History Filter step. *)
Lemma main_after_filter (env : Env) (config : RunConfig) (w : World) :
  _main env config w =
  (repo ← prelude env config;
   _filter_history env (src_repository config) (target_dir config) repo
                   (dry_run config) (default_timeout_sec config);;
   for_each (tail (pipeline env config repo)) false run_step;; mret tt) w.
Proof.
  rewrite main_as_pipeline. apply bind_ext. intros repo w1.
  unfold pipeline at 1. cbv zeta. cbn [for_each]. unfold run_step. cbv beta.
  rewrite !bind_assoc. apply bind_ext. intros _ w2. rewrite ret_bind.
  reflexivity.
Qed.

Lemma emits_later (env : Env) (config : RunConfig) (repo : Path) (b : bool) :
  emits (λ e, ¬ is_filter_popen e)
        (for_each (tail (pipeline env config repo)) b run_step;; mret tt).
Proof.
  apply emits_bind; [|intros; apply emits_ret].
  apply emits_for_each. intros step b' Hin.
  pose proof (emits_later_steps env config repo) as H.
  rewrite Forall_forall in H. by apply H.
Qed.

(** X4: when the process of the history-rewrite command answers a non-zero
    status, [_main] ends with an exception, and up to its end no root
    entry of the clone was moved or deleted. *)
Theorem filter_failure_stops_pipeline (env : Env) (config : RunConfig)
    (w : World) (c : Z) :
  let o := _main env config w in
  filter_exit (out_events o) = Some c →
  c ≠ 0 →
  (∃ e, out_res o = Raise e) ∧ Forall (λ e, ¬ flattens e) (out_events o).
Proof.
  cbn zeta. rewrite main_after_filter, bind_run.
  pose proof (emits_prelude env config w) as Hp.
  destruct (prelude env config w) as [ev0 [repo|e] w1];
    cbn [out_events out_res out_world] in *.
  2:{ intros H. rewrite filter_exit_none in H; [done|].
      eapply Forall_impl; [exact Hp|]. by intros ? []. }
  rewrite bind_run.
  pose proof (emits_filter_history env (src_repository config)
                (target_dir config) repo (dry_run config)
                (default_timeout_sec config) w1) as Hf.
  pose proof (filter_history_exit env (src_repository config)
                (target_dir config) repo (dry_run config)
                (default_timeout_sec config) w1) as Hx.
  cbn zeta in Hx.
  destruct (_filter_history env _ _ repo _ _ w1) as [evf [[]|e] w2];
    cbn [out_events out_res out_world] in *.
  - intros Hexit Hc. exfalso.
    rewrite filter_exit_skip in Hexit
      by (eapply Forall_impl; [exact Hp|]; by intros ? []).
    destruct (Hx _ c (emits_later env config repo false w2) Hexit Hc) as [e He].
    discriminate He.
  - intros _ _. split; [by eexists|]. apply Forall_app. split; [|done].
    eapply Forall_impl; [exact Hp|]. by intros ? [].
Qed.

Lemma filter_failure_stops_pipeline_witness :
  ∃ e, out_res (_main (plain_env (failing_demo_popen filter_args 1))
                      (demo_config false) fresh_world) = Raise e.
Proof.
  apply (filter_failure_stops_pipeline
           (plain_env (failing_demo_popen filter_args 1))
           (demo_config false) fresh_world 1).
  - vm_compute. reflexivity.
  - lia.
Defined.

(** X5: a step of the pipeline that raises is the last thing [_main] does:
    the exception is the result of [_main], and the events and the world
    are those up to the end of that step; no later step adds anything. *)
Theorem failing_step_ends_pipeline (env : Env) (config : RunConfig)
    (w : World) (repo : Path) (done_ later : list (bool → M bool))
    (step : bool → M bool) (b : bool) (e : exn) :
  let p := prelude env config w in
  let o1 := for_each done_ false run_step (out_world p) in
  out_res p = Ok repo →
  pipeline env config repo = done_ ++ step :: later →
  out_res o1 = Ok b →
  out_res (step b (out_world o1)) = Raise e →
  _main env config w =
  mkOut (out_events p ++ out_events o1 ++ out_events (step b (out_world o1)))
        (Raise e)
        (out_world (step b (out_world o1))).
Proof.
  cbn zeta. intros Hp Hsplit Hd Hs.
  rewrite main_as_pipeline, bind_run, Hp, Hsplit, bind_run.
  by rewrite (for_each_abort done_ later step false run_step _ b e Hd Hs).
Qed.

Lemma failing_step_ends_pipeline_witness :
  out_res (_main (plain_env (failing_demo_popen move_args 128))
                 (demo_config false) fresh_world)
  = Raise (ScriptError "command failed with exit status 128").
Proof.
  set (env := plain_env (failing_demo_popen move_args 128)).
  set (repo := path_of_string "data/raw/mono").
  rewrite (failing_step_ends_pipeline env (demo_config false) fresh_world repo
             (take 1 (pipeline env (demo_config false) repo))
             (drop 2 (pipeline env (demo_config false) repo))
             (λ b, _change_root_directory env repo
                     (target_dir (demo_config false)) false 30;; mret b)
             false (ScriptError "command failed with exit status 128"));
    [reflexivity | vm_compute; reflexivity | reflexivity
    | vm_compute; reflexivity | vm_compute; reflexivity].
Defined.

(** ** Properties of event lists that pass through sequencing *)

Section Traces.
Context (env : Env) (P : list event → Prop).
Hypothesis P_nil : P [].
Hypothesis P_app : ∀ l1 l2, P l1 → P l2 → P (l1 ++ l2).

Lemma traces_ret {A} (a : A) : traces P (mret a).
Proof. intros w. exact P_nil. Qed.

Lemma traces_raise {A} (e : exn) : traces P (raise e : M A).
Proof. intros w. exact P_nil. Qed.

Lemma traces_emit (e : event) : P [e] → traces P (emit e).
Proof. intros H w. exact H. Qed.

Lemma traces_bind {A B} (m : M A) (f : A → M B) :
  traces P m → (∀ a, traces P (f a)) → traces P (m ≫= f).
Proof.
  intros Hm Hf w. rewrite bind_run. specialize (Hm w).
  destruct (out_res (m w)); simpl; [|done]. apply P_app; [done|apply Hf].
Qed.

Lemma traces_try_except {A} (body : M A) (handler : exn → option (M A)) :
  traces P body → (∀ e h, handler e = Some h → traces P h) →
  traces P (try_except body handler).
Proof.
  intros Hb Hh w. unfold try_except. specialize (Hb w).
  destruct (out_res (body w)) as [a|e]; [done|].
  destruct (handler e) as [h|] eqn:E; [|done].
  apply P_app; [done|]. by apply (Hh e).
Qed.

Lemma traces_for_each {A S} (l : list A) (s : S) (body : A → S → M S) :
  (∀ x s, traces P (body x s)) → traces P (for_each l s body).
Proof.
  intros H. revert s. induction l as [|x l IH]; intros s.
  - apply traces_ret.
  - apply traces_bind; [apply H|]. intros s'. apply IH.
Qed.

Lemma traces_absolute p : traces P (absolute p).
Proof. intros w. by rewrite (proj1 (absolute_run p w)). Qed.

Lemma traces_iterdir p : traces P (iterdir env p).
Proof. intros w. rewrite iterdir_run. by repeat case_match. Qed.

Lemma traces_exists p : traces P (exists_ p).
Proof. intros w. exact P_nil. Qed.

Lemma traces_rmtree p : P [EvRmtree p] → traces P (rmtree p).
Proof. intros H w. by rewrite rmtree_events. Qed.

Lemma traces_working_directory {A} (path : Path) (body : M A) :
  (∀ s, P [EvChdir s]) → traces P body → traces P (_working_directory path body).
Proof.
  intros Hc Hb w.
  destruct (working_directory_cases path body w)
    as [(lead & e & Hl & _ & ->)|(q & m & _ & ->)]; simpl.
  - clear -Hl Hc P_nil P_app. induction Hl as [|x l Hx _ IH]; [done|].
    destruct x; try done. by apply (P_app [_]).
  - apply (P_app [_]); [done|]. apply P_app; [apply Hb|].
    by rewrite chdir_events.
Qed.

End Traces.

(** Decompose a goal [traces P m]; the two closure properties of [P]
    are the first two goals it was given. *)
Ltac traces_tac HN HA :=
  repeat first
    [ apply (traces_ret _ HN) | apply (traces_raise _ HN)
    | apply traces_emit
    | apply (traces_absolute _ HN) | apply (traces_iterdir _ _ HN)
    | apply (traces_exists _ HN) | apply traces_rmtree
    | apply (traces_working_directory _ HN HA)
    | apply (traces_try_except _ HA);
        [|let e := fresh "e" in let h := fresh "h" in
          intros e h; destruct e; intros [= <-]]
    | apply (traces_for_each _ HN HA); intros
    | apply (traces_bind _ HA); [|intros]
    | match goal with
      | |- traces _ (if ?b then _ else _) => destruct b
      | |- traces _ (match ?x with _ => _ end) => destruct x
      | |- traces _ (let '(_, _) := ?x in _) => destruct x
      end
    | progress unfold _main, _check_tools, _filter_history,
        _change_root_directory, _git_commit, _git_rename, _git_push,
        _create_gh_repo_and_set_upstream, _gh_repo_archive,
        move_target, remove_root, move_back, rename_one, log ].

Lemma logged_is_spawned_nil : logged_is_spawned [].
Proof. done. Qed.

Lemma logged_is_spawned_app (l1 l2 : list event) :
  logged_is_spawned l1 → logged_is_spawned l2 → logged_is_spawned (l1 ++ l2).
Proof.
  unfold logged_is_spawned. intros H1 H2.
  by rewrite commands_app, spawned_app, H1, H2.
Qed.

Lemma run_command_logged_is_spawned (env : Env) (args : list string) (t : Z) :
  traces logged_is_spawned (_run_command env args false t).
Proof.
  intros w. unfold logged_is_spawned.
  by rewrite run_command_commands, run_command_spawned.
Qed.

Transparent _check_tools _filter_history _change_root_directory _git_commit
  _git_rename _git_push _create_gh_repo_and_set_upstream _gh_repo_archive.

(** X3: with dry-run off, the commands [_main] logs are, one for one and in
    the same order, the commands it asks a process for: nothing is run
    that is not logged first, nothing is logged that is not run. *)
Theorem main_logged_is_spawned (env : Env) (config : RunConfig) (w : World) :
  dry_run config = false →
  commands (out_events (_main env config w))
  = spawned (out_events (_main env config w)).
Proof.
  intros Hd.
  cut (traces logged_is_spawned (_main env config)); [intros H; apply H|].
  unfold _main. rewrite Hd.
  traces_tac logged_is_spawned_nil logged_is_spawned_app;
    try apply run_command_logged_is_spawned; done.
Qed.

Lemma main_logged_is_spawned_witness :
  commands (out_events (_main demo_env (demo_config false) fresh_world))
  = spawned (out_events (_main demo_env (demo_config false) fresh_world)).
Proof. apply (main_logged_is_spawned demo_env (demo_config false)). reflexivity. Defined.

Lemma main_dry_run_spawns_nothing_witness :
  spawned (out_events (_main demo_env (demo_config true) stale_world)) = [].
Proof. apply (main_dry_run_spawns_nothing demo_env (demo_config true)). reflexivity. Defined.

(** ** The commands of the steps *)

Lemma issues_ret {A} (a : A) : issues [] (mret a).
Proof. intros w. by split. Qed.

Lemma issues_bind {A B} (c1 c2 : list (list string)) (m : M A) (f : A → M B) :
  issues c1 m → (∀ a, issues c2 (f a)) → issues (c1 ++ c2) (m ≫= f).
Proof.
  intros Hm Hf w. rewrite bind_run. destruct (Hm w) as [H1 H2].
  destruct (out_res (m w)) as [a|e]; simpl.
  - destruct (Hf a (out_world (m w))) as [H3 H4].
    rewrite commands_app, (H2 a eq_refl). split; [by apply prefix_app|].
    intros b Hb. by rewrite (H4 b Hb).
  - split; [by apply prefix_app_r|done].
Qed.

Lemma issues_run_command (env : Env) (args : list string) (dry : bool) (t : Z) :
  issues [args] (_run_command env args dry t).
Proof. intros w. by rewrite run_command_commands. Qed.

Lemma issues_absolute (p : Path) : issues [] (absolute p).
Proof. intros w. by rewrite (proj1 (absolute_run p w)). Qed.

Lemma issues_working_directory {A} (cmds : list (list string)) (path : Path)
    (body : M A) :
  issues cmds body → issues cmds (_working_directory path body).
Proof.
  intros Hb w.
  destruct (working_directory_cases path body w)
    as [(lead & e & Hl & _ & ->)|(q & m & _ & ->)]; simpl.
  - rewrite (commands_chdir _ Hl). split; [apply prefix_nil|done].
  - destruct (Hb (mkWorld (w_fs w) q (w_spawned w))) as [H1 H2].
    rewrite chdir_events.
    assert (∀ evs s, commands (evs ++ [EvChdir s]) = commands evs) as ->.
    { intros evs s. by rewrite commands_app, app_nil_r. }
    split; [done|]. intros a. case_match; [|done]. apply H2.
Qed.

Transparent _git_commit _create_gh_repo_and_set_upstream _filter_history.

(** X9: the Commit Step issues, in this order, [git config --local
    user.name] if a name is given, [git config --local user.email] if an
    address is given, [git add .] and [git commit -m message]; it stops
    at the first command that fails, so nothing is committed unless the
    staging returned. *)
Theorem git_commit_commands (env : Env) (git_directory : Path)
    (user_name user_email : option string) (message : string) (dry : bool)
    (t : Z) (w : World) :
  let o := _git_commit env git_directory user_name user_email message dry t w in
  commands (out_events o) `prefix_of` commit_commands user_name user_email message ∧
  (out_res o = Ok tt →
   commands (out_events o) = commit_commands user_name user_email message).
Proof.
  cut (issues (commit_commands user_name user_email message)
         (_git_commit env git_directory user_name user_email message dry t)).
  { intros H. destruct (H w) as [H1 H2]. split; [done|]. apply H2. }
  unfold _git_commit, commit_commands.
  apply (issues_bind []); [apply issues_absolute|intros dir].
  apply issues_working_directory.
  apply issues_bind.
  { destruct user_name; [apply issues_run_command|apply issues_ret]. }
  intros _. apply issues_bind.
  { destruct user_email; [apply issues_run_command|apply issues_ret]. }
  intros _. apply (issues_bind [_] [_]); [apply issues_run_command|].
  intros _. apply issues_run_command.
Qed.

(** X10: the Repository Publish step asks for a public repository exactly
    when [is_public] is set, then registers the remote from inside the
    clone; when the creation fails, the remote is not registered and the
    working directory is not touched. *)
Theorem create_repo_commands (env : Env) (git_repository : Path)
    (repository_name remote_name : string) (is_public dry : bool) (t : Z)
    (w : World) :
  let o := _create_gh_repo_and_set_upstream env git_repository repository_name
             remote_name is_public dry t w in
  let create := ["gh"; "repo"; "create"; repository_name;
                 if is_public then "--public" else "--private"] in
  let remote := ["git"; "remote"; "add"; remote_name;
                 "https://github.com/" +:+ repository_name +:+ ".git"] in
  commands (out_events o) `prefix_of` [create; remote] ∧
  (out_res o = Ok tt → commands (out_events o) = [create; remote]) ∧
  (∀ e, out_res (_run_command env create dry t w) = Raise e →
        o = _run_command env create dry t w).
Proof.
  cbn zeta. split_and!.
  - apply (issues_bind [_] [_]); [apply issues_run_command|intros _].
    apply issues_working_directory, issues_run_command.
  - apply (issues_bind [_] [_]); [apply issues_run_command|intros _].
    apply issues_working_directory, issues_run_command.
  - intros e. unfold _create_gh_repo_and_set_upstream. rewrite bind_run.
    destruct (_run_command env _ dry t w) as [ev r w']. simpl.
    by intros ->.
Qed.

Lemma replace_backslash_clean (s : string) :
  has_backslash (replace_backslash s) = false.
Proof.
  induction s as [|c s IH]; [done|]. simpl.
  destruct (Ascii.eqb c backslash) eqn:E; simpl; [done|]. by rewrite E.
Qed.

Lemma replace_backslash_id (s : string) :
  has_backslash s = false → replace_backslash s = s.
Proof.
  induction s as [|c s IH]; [done|]. simpl.
  destruct (Ascii.eqb c backslash); [done|]. simpl. intros H. by rewrite IH.
Qed.

(** X11: the History Filter step issues the clone into the absolute path of
    the clone directory and then [git filter-repo --path P]; [P] is the
    text of the target directory with every backslash turned into a
    slash, so it has no backslash and is that text itself when there was
    none.  The rewrite is not issued unless the clone returned. *)
Theorem filter_history_commands (env : Env) (src : string)
    (target clone dir : Path) (dry : bool) (t : Z) (w : World) :
  out_res (absolute clone w) = Ok dir →
  let o := _filter_history env src target clone dry t w in
  let P := replace_backslash (path_str target) in
  let cmds := [["gh"; "repo"; "clone"; src; path_str dir];
               ["git"; "filter-repo"; "--path"; P]] in
  commands (out_events o) `prefix_of` cmds ∧
  (out_res o = Ok tt → commands (out_events o) = cmds) ∧
  has_backslash P = false ∧
  (has_backslash (path_str target) = false → P = path_str target).
Proof.
  intros Ha. cbn zeta. split_and!.
  3: apply replace_backslash_clean.
  3: apply replace_backslash_id.
  all: unfold _filter_history; rewrite bind_run;
    destruct (absolute_cases clone w) as [[d Hd]|[e He]];
    [|rewrite He in Ha; discriminate Ha];
    rewrite Hd in *; simpl in Ha; simplify_eq; simpl.
  - apply (issues_bind [_] [_]); [apply issues_run_command|intros _].
    apply (issues_bind [] [_]); [apply issues_absolute|intros d].
    apply issues_working_directory, issues_run_command.
  - apply (issues_bind [_] [_]); [apply issues_run_command|intros _].
    apply (issues_bind [] [_]); [apply issues_absolute|intros d].
    apply issues_working_directory, issues_run_command.
Qed.

Lemma filter_history_commands_witness :
  commands (out_events (_filter_history demo_env "org/mono"
              (path_of_string "libs/widget") (path_of_string "data/raw/mono")
              false 30 fresh_world))
  = [["gh"; "repo"; "clone"; "org/mono"; "/work/data/raw/mono"];
     ["git"; "filter-repo"; "--path"; "libs/widget"]].
Proof.
  apply (filter_history_commands demo_env "org/mono"
           (path_of_string "libs/widget") (path_of_string "data/raw/mono")
           (path_of_string "/work/data/raw/mono") false 30 fresh_world);
    vm_compute; reflexivity.
Defined.

Opaque _git_commit _create_gh_repo_and_set_upstream _filter_history.

(** ** What the Tool Availability Check does not catch *)

Transparent _check_tools.

(** X6: only [_ScriptError] is turned into the answer False.  When a tool
    cannot be started at all (it is not installed: [Popen] raises
    [FileNotFoundError]) or runs into the timeout, the exception passes
    through the check unchanged and no "Could not find tool" entry is
    logged. *)
Theorem check_tools_passes_other_errors (env : Env) (dry : bool) (t : Z)
    (w : World) (args : list string) (r : Out unit) (e : exn) :
  (args, r) ∈ invocations env dry t tool_commands w →
  out_res r = Raise e →
  (∀ msg, e ≠ ScriptError msg) →
  out_res (_check_tools env dry t w) = Raise e ∧
  tool_errors (out_events (_check_tools env dry t w)) = [].
Proof.
  unfold _check_tools, try_except, tool_commands, invocations.
  rewrite !bind_run.
  pose proof (run_command_tool_errors env ["git"; "--version"] dry t w) as T1.
  destruct (_run_command env ["git"; "--version"] dry t w) as [e1 [[]|x1] w1];
    cbn [out_events out_res out_world] in *.
  2:{ rewrite list_elem_of_singleton. intros [= -> ->] [= ->] Hne.
      destruct e as [msg| | | |].
      { exfalso. by apply (Hne msg). }
      all: split; [reflexivity|exact T1]. }
  pose proof (run_command_tool_errors env ["git"; "filter-repo"; "--version"]
                dry t w1) as T2.
  destruct (_run_command env ["git"; "filter-repo"; "--version"] dry t w1)
    as [e2 [[]|x2] w2]; cbn [out_events out_res out_world] in *.
  2:{ rewrite !elem_of_cons, elem_of_nil.
      intros [[= -> ->]|[[= -> ->]|[]]] [= ->] Hne.
      unfold tool_errors in *.
      destruct e as [msg| | | |]; [exfalso; by apply (Hne msg)|..];
        (split; [done|]); cbn [out_events]; by rewrite ?omap_app, ?T1, ?T2. }
  pose proof (run_command_tool_errors env ["gh"; "--version"] dry t w2) as T3.
  destruct (_run_command env ["gh"; "--version"] dry t w2)
    as [e3 [[]|x3] w3]; cbn [out_events out_res out_world] in *.
  2:{ rewrite !elem_of_cons, elem_of_nil.
      intros [[= -> ->]|[[= -> ->]|[[= -> ->]|[]]]] [= ->] Hne.
      unfold tool_errors in *.
      destruct e as [msg| | | |]; [exfalso; by apply (Hne msg)|..];
        (split; [done|]); cbn [out_events];
        by rewrite ?omap_app, ?T1, ?T2, ?T3. }
  rewrite !elem_of_cons, elem_of_nil.
  intros [[= -> ->]|[[= -> ->]|[[= -> ->]|[]]]] [=].
Qed.

Opaque _check_tools.

Lemma check_tools_passes_other_errors_witness :
  out_res (_check_tools (plain_env (missing_popen "gh")) false 30 fresh_world)
  = Raise (OSError ENOENT "gh").
Proof.
  apply (check_tools_passes_other_errors (plain_env (missing_popen "gh"))
           false 30 fresh_world ["gh"; "--version"]
           (_run_command (plain_env (missing_popen "gh")) ["gh"; "--version"]
              false 30 (mkWorld (w_fs fresh_world) ["work"] 2))).
  - apply list_elem_of_In. vm_compute. right; right; left; reflexivity.
  - vm_compute. reflexivity.
  - intros msg. discriminate.
Defined.

(** ** How [_main] starts *)

Lemma split_slash_no_slash (s : string) :
  has_slash s = false → split_slash s = [s].
Proof.
  induction s as [|c s IH]; [done|]. simpl.
  destruct (Ascii.eqb c slash); [done|]. simpl. intros H. by rewrite IH.
Qed.

Lemma split_slash_slash (s : string) :
  has_slash s = true → ∃ a b rest, split_slash s = a :: b :: rest.
Proof.
  induction s as [|c s IH]; [done|]. simpl.
  destruct (Ascii.eqb c slash); simpl.
  - intros _. destruct s as [|c' s]; simpl; [by eauto|].
    destruct (Ascii.eqb c' slash); [by eauto|].
    destruct (split_slash s); eauto.
  - intros H. destruct (IH H) as (a & b & rest & ->). eauto.
Qed.

(** X8: a source repository that is not of the form owner/name (it has no
    slash) makes [_main] raise [IndexError] right after logging the
    configuration: no tool is checked, no command is issued, nothing is
    touched. *)
Theorem main_needs_owner_and_name (env : Env) (config : RunConfig) (w : World) :
  has_slash (src_repository config) = false →
  _main env config w = mkOut [EvLog INFO (MsgConfig config)] (Raise IndexError) w.
Proof.
  intros H. unfold _main. rewrite (split_slash_no_slash _ H). reflexivity.
Qed.

Lemma main_needs_owner_and_name_witness :
  out_res (_main demo_env
             (mkRunConfig "mono" "org/widget" (path_of_string "libs/widget")
                          false false None None false 30 false 0)
             fresh_world) = Raise IndexError.
Proof.
  rewrite (main_needs_owner_and_name demo_env _ fresh_world); reflexivity.
Defined.

Lemma prelude_run (env : Env) (config : RunConfig) (w : World) (name : string) :
  split_slash (src_repository config) !! 1%nat = Some name →
  prelude env config w =
  (log INFO (MsgConfig config);;
   is_tools ← _check_tools env (dry_run config) (default_timeout_sec config);
   if negb is_tools then raise (ValueError "could not find tools.")
   else mret (path_join (path_of_string "data/raw") (path_of_string name))) w.
Proof.
  intros H. unfold prelude. apply bind_ext. intros _ w1. rewrite H.
  by rewrite ret_bind.
Qed.

Transparent _check_tools.

Lemma check_tools_issues (env : Env) (dry : bool) (t : Z) (w : World) :
  commands (out_events (_check_tools env dry t w)) `prefix_of` tool_commands.
Proof.
  unfold _check_tools, tool_commands. unfold try_except.
  assert (issues [["git"; "--version"]; ["git"; "filter-repo"; "--version"];
                  ["gh"; "--version"]]
            (_run_command env ["git"; "--version"] dry t;;
             _run_command env ["git"; "filter-repo"; "--version"] dry t;;
             _run_command env ["gh"; "--version"] dry t;;
             mret true)) as Hb.
  { apply (issues_bind [_] [_; _]); [apply issues_run_command|intros _].
    apply (issues_bind [_] [_]); [apply issues_run_command|intros _].
    apply (issues_bind [_] []); [apply issues_run_command|intros _].
    apply issues_ret. }
  destruct (Hb w) as [H1 H2].
  destruct (out_res _) as [a|[msg| | | |]] eqn:Er.
  2:{ cbn [out_events out_res out_world]. rewrite commands_app.
      by rewrite app_nil_r. }
  all: exact H1.
Qed.

Opaque _check_tools.

(** X7: when the Tool Availability Check answers False, [_main] raises
    [ValueError] at once: the only commands issued are version queries of
    the tools, nothing is cloned, moved or deleted. *)
Theorem main_stops_without_tools (env : Env) (config : RunConfig) (w : World)
    (name : string) :
  split_slash (src_repository config) !! 1%nat = Some name →
  out_res (_check_tools env (dry_run config) (default_timeout_sec config) w)
    = Ok false →
  let o := _main env config w in
  out_res o = Raise (ValueError "could not find tools.") ∧
  commands (out_events o) `prefix_of` tool_commands ∧
  Forall (λ e, ¬ flattens e) (out_events o).
Proof.
  intros Hn Hc. cbn zeta. rewrite main_as_pipeline, bind_run.
  pose proof (emits_prelude env config w) as Hp.
  rewrite (prelude_run env config w name Hn) in *.
  rewrite bind_run in *. unfold log, emit in *.
  cbn [out_events out_res out_world] in *. rewrite bind_run in *.
  pose proof (check_tools_issues env (dry_run config)
                (default_timeout_sec config) w) as Hi.
  destruct (_check_tools env (dry_run config) (default_timeout_sec config) w)
    as [evc [[|]|e] wc] eqn:E; cbn [out_events out_res out_world] in *;
    simplify_eq.
  cbn [negb out_events out_res out_world raise app] in *.
  rewrite app_nil_r in *. split; [done|]. split; [done|].
  eapply Forall_impl; [exact Hp|]. by intros ? [].
Qed.

Lemma main_stops_without_tools_witness :
  out_res (_main (plain_env (failing_popen "gh" 1)) (demo_config false)
                 fresh_world)
  = Raise (ValueError "could not find tools.").
Proof.
  apply (main_stops_without_tools (plain_env (failing_popen "gh" 1))
           (demo_config false) fresh_world "mono");
    vm_compute; reflexivity.
Defined.

(** ** The guarded entry point and what the user gets to see *)

Lemma script_run (env : Env) (config : RunConfig) (w : World) :
  script env config w =
  match out_res (_main env config w) with
  | Ok _ => mkOut (out_events (_main env config w)) (Ok 0)
                  (out_world (_main env config w))
  | Raise e => mkOut (out_events (_main env config w)
                        ++ [EvLog ERROR (MsgException e)])
                     (Ok 1) (out_world (_main env config w))
  end.
Proof.
  unfold script, try_except. rewrite bind_run.
  destruct (_main env config w) as [ev [[]|e] w']; simpl; [|done].
  by rewrite app_nil_r.
Qed.

Lemma hidden_commands (config : RunConfig) (evs : list event) :
  verbose config = 0 ∨ verbose config = 1 →
  Forall command_at_info evs →
  commands (displayed config evs) = [].
Proof.
  intros Hv. induction 1 as [|e evs He _ IH]; [done|].
  unfold displayed in *. rewrite filter_cons. case_decide as Hs; [|done].
  destruct e as [l m| | | | | |]; try done.
  destruct m; try exact IH. simpl in He. subst l. exfalso.
  unfold shown in Hs. destruct Hv as [Hv|Hv]; rewrite Hv in Hs; discriminate Hs.
Qed.

Transparent _check_tools _filter_history _change_root_directory _git_commit
  _git_rename _git_push _create_gh_repo_and_set_upstream _gh_repo_archive.

Lemma emits_script_commands (env : Env) (config : RunConfig) :
  emits command_at_info (script env config).
Proof.
  unfold script. apply emits_try_except.
  - apply emits_bind; [|intros; apply emits_ret].
    emits_tac; simpl; try done; repeat split; done.
  - intros e h [= <-]. emits_tac; done.
Qed.

Opaque _check_tools _filter_history _change_root_directory _git_commit
  _git_rename _git_push _create_gh_repo_and_set_upstream _gh_repo_archive.

(** X13: the command lines are logged at level INFO, and the threshold of the
    logger is ERROR without [-v] and WARNING with one [-v]: with fewer
    than two [-v] flags no command line is shown, in a dry run as in a
    real run. *)
Theorem commands_hidden_below_vv (env : Env) (config : RunConfig) (w : World) :
  verbose config = 0 ∨ verbose config = 1 →
  commands (displayed config (out_events (script env config w))) = [].
Proof.
  intros Hv. apply hidden_commands; [done|]. apply emits_script_commands.
Qed.

Lemma commands_hidden_below_vv_witness :
  commands (displayed (demo_config true)
              (out_events (script demo_env (demo_config true) stale_world))) = [].
Proof.
  apply (commands_hidden_below_vv demo_env (demo_config true) stale_world).
  left. reflexivity.
Defined.

(** X14: whatever the verbosity, the exception that ends [_main] is shown:
    the threshold never exceeds ERROR. *)
Theorem failure_always_displayed (env : Env) (config : RunConfig) (w : World)
    (e : exn) :
  out_res (_main env config w) = Raise e →
  EvLog ERROR (MsgException e)
    ∈ displayed config (out_events (script env config w)).
Proof.
  intros H. rewrite script_run, H. cbn [out_events].
  unfold displayed. rewrite filter_app. apply elem_of_app. right.
  rewrite filter_cons_True; [left|].
  unfold shown, loglevel, levelno.
  destruct (verbose config) as [|[[]|[]|]|]; done.
Qed.

Lemma failure_always_displayed_witness :
  EvLog ERROR (MsgException (ScriptError "command failed with exit status 1"))
    ∈ displayed (demo_config false)
        (out_events (script (plain_env (failing_demo_popen filter_args 1))
                            (demo_config false) fresh_world)).
Proof.
  apply (failure_always_displayed (plain_env (failing_demo_popen filter_args 1))
           (demo_config false) fresh_world).
  vm_compute. reflexivity.
Defined.

(** ** When a command returns *)

(** X15: a call of the Command Runner returns normally exactly when
    dry-run is on or the process was created and exited with status 0
    within the timeout; when the process cannot be created, the
    exception of [Popen] leaves the runner at once, with the world as it
    was and without any call of [proc.kill]. *)
Theorem run_command_returns (env : Env) (args : list string) (dry : bool)
    (t : Z) (w : World) :
  let o := _run_command env args dry t w in
  (out_res o = Ok tt ↔
   dry = true ∨ ∃ beh fs', env_popen env args w = inr beh ∧ beh t = Exits 0 fs') ∧
  (dry = true → out_world o = w) ∧
  (∀ k, dry = false → env_popen env args w = inl k →
        o = mkOut [EvLog INFO (MsgCommand args); EvPopen args]
                  (Raise (OSError k (hd "" args))) w).
Proof.
  cbn zeta. destruct dry.
  - rewrite run_command_dry. split_and!; try done. split; [by left|done].
  - rewrite run_command_real. split_and!; try done.
    + split.
      * destruct (env_popen env args w) as [k|beh]; [done|].
        destruct (beh t) as [code fs'|fs'] eqn:E; [|done].
        destruct (decide (code ≠ 0)) as [Hc|Hc]; [done|].
        intros _. right. exists beh, fs'. split; [done|].
        rewrite E. f_equal. destruct (decide (code = 0)); [done|]. by destruct Hc.
      * intros [[=]|(beh & fs' & -> & ->)]. done.
    + intros k _ ->. done.
Qed.

(** ** The Cleanup step *)

Lemma for_each_snoc {A S} (l : list A) (x : A) (s : S) (body : A → S → M S)
    (w : World) :
  for_each (l ++ [x]) s body w = (for_each l s body ≫= λ s', body x s') w.
Proof.
  revert s w. induction l as [|y l IH]; intros s w.
  - simpl. rewrite ret_bind, bind_run.
    destruct (body x s w) as [ev [s'|e] w']; simpl; [|done].
    by rewrite app_nil_r.
  - simpl. rewrite bind_assoc. apply bind_ext. intros s' w'. apply IH.
Qed.

(** X16: when [clean] is set and [_main] returns, the last thing it did
    was [shutil.rmtree] of the clone directory [data/raw/<name>]; this
    holds in a dry run as well, the deletion is not guarded by
    [dry_run]. *)
Theorem main_cleans_up_last (env : Env) (config : RunConfig) (w : World)
    (name : string) :
  split_slash (src_repository config) !! 1%nat = Some name →
  clean config = true →
  out_res (_main env config w) = Ok tt →
  last (out_events (_main env config w))
  = Some (EvRmtree (path_str (path_join (path_of_string "data/raw")
                                        (path_of_string name)))).
Proof.
  intros Hn Hc. rewrite main_as_pipeline, bind_run.
  rewrite (prelude_run env config w name Hn). rewrite !bind_run.
  unfold log, emit. cbn [out_events out_res out_world].
  destruct (_check_tools env (dry_run config) (default_timeout_sec config) w)
    as [evc [[|]|e] wc]; cbn [negb out_events out_res out_world]; try done.
  set (repo := path_join (path_of_string "data/raw") (path_of_string name)).
  cbn [mret M_ret out_events out_res out_world]. rewrite bind_run.
  change (pipeline env config repo)
    with (take 8 (pipeline env config repo) ++
          [λ b : bool, (if clean config then rmtree (path_str repo)
                        else mret tt);; mret b]).
  rewrite for_each_snoc, bind_run.
  destruct (for_each (take 8 (pipeline env config repo)) false run_step wc)
    as [ev8 [b|e] w8]; cbn [out_events out_res out_world]; [|done].
  unfold run_step. rewrite Hc, bind_run.
  pose proof (rmtree_events (path_str repo) w8) as Hr.
  destruct (rmtree (path_str repo) w8) as [evr [[]|e] wr];
    cbn [out_events out_res out_world mret M_ret] in *; [|done].
  intros _. subst evr. rewrite !app_nil_r, !app_assoc. apply last_snoc.
Qed.

Lemma main_cleans_up_last_witness :
  last (out_events (_main demo_env
          (mkRunConfig "org/mono" "org/widget" (path_of_string "libs/widget")
                       false false None None true 30 false 0) fresh_world))
  = Some (EvRmtree "data/raw/mono").
Proof.
  apply (main_cleans_up_last demo_env
           (mkRunConfig "org/mono" "org/widget" (path_of_string "libs/widget")
                        false false None None true 30 false 0) fresh_world "mono");
    vm_compute; reflexivity.
Defined.
(** ** Trees *)

Lemma lookup_path_cons (c : string) (p : list string) (m : gmap string node) :
  lookup_path (c :: p) (Dir m) = m !! c ≫= lookup_path p.
Proof. simpl. by destruct (m !! c). Qed.

Lemma lookup_path_file (c : string) (p : list string) (d : string) :
  lookup_path (c :: p) (File d) = None.
Proof. done. Qed.

Lemma insert_path_one (c : string) (x : node) (m : gmap string node) :
  insert_path [c] x (Dir m) = Dir (<[c := x]> m).
Proof. done. Qed.

Lemma insert_path_cons (c c' : string) (p : list string) (x n' : node)
    (m : gmap string node) :
  m !! c = Some n' →
  insert_path (c :: c' :: p) x (Dir m) = Dir (<[c := insert_path (c' :: p) x n']> m).
Proof. intros E. cbn [insert_path]. by rewrite E. Qed.

Lemma delete_path_one (c : string) (m : gmap string node) :
  delete_path [c] (Dir m) = Dir (delete c m).
Proof. done. Qed.

Lemma delete_path_cons (c c' : string) (p : list string) (n' : node)
    (m : gmap string node) :
  m !! c = Some n' →
  delete_path (c :: c' :: p) (Dir m) = Dir (<[c := delete_path (c' :: p) n']> m).
Proof. intros E. cbn [delete_path]. by rewrite E. Qed.

Lemma lookup_path_app (p r : list string) (n : node) :
  lookup_path (p ++ r) n = lookup_path p n ≫= lookup_path r.
Proof.
  revert n. induction p as [|c p IH]; intros n; [done|].
  simpl. destruct n as [d|m]; [done|]. destruct (m !! c); [apply IH|done].
Qed.

Lemma lookup_path_through (p r : list string) (c : string) (n v : node) :
  lookup_path (p ++ c :: r) n = Some v → ∃ m, lookup_path p n = Some (Dir m).
Proof.
  rewrite lookup_path_app. destruct (lookup_path p n) as [[d|m]|]; simpl;
    [done|by eauto|done].
Qed.

(** The parent of an existing entry, one step at a time. *)
Lemma lookup_path_step (c : string) (q : list string) (fs n : node) :
  lookup_path (c :: q) fs = Some n →
  ∃ m n', fs = Dir m ∧ m !! c = Some n' ∧ lookup_path q n' = Some n.
Proof.
  destruct fs as [d|m]; [done|]. rewrite lookup_path_cons.
  destruct (m !! c) as [n'|] eqn:E; [|done]. simpl. eauto.
Qed.

Lemma insert_path_same (q : list string) (n fs : node) :
  lookup_path q fs = Some n → insert_path q n fs = fs.
Proof.
  revert fs. induction q as [|c q IH]; intros fs H.
  { by injection H as ->. }
  apply lookup_path_step in H as (m & n' & -> & E & H).
  destruct q as [|c' q].
  - injection H as ->. by rewrite insert_path_one, insert_id.
  - by rewrite (insert_path_cons _ _ _ _ _ _ E), (IH _ H), insert_id.
Qed.

Lemma insert_path_lookup (q p : list string) (n fs old : node) :
  lookup_path q fs = Some old →
  lookup_path (q ++ p) (insert_path q n fs) = lookup_path p n.
Proof.
  revert fs. induction q as [|c q IH]; intros fs H; [done|].
  apply lookup_path_step in H as (m & n' & -> & E & H).
  destruct q as [|c' q].
  - rewrite insert_path_one. cbn [app]. by rewrite lookup_path_cons, lookup_insert_eq.
  - rewrite (insert_path_cons _ _ _ _ _ _ E).
    change ((c :: c' :: q) ++ p) with (c :: ((c' :: q) ++ p)).
    rewrite lookup_path_cons, lookup_insert_eq. by apply IH.
Qed.

Lemma insert_path_twice (q : list string) (n1 n2 fs old : node) :
  lookup_path q fs = Some old →
  insert_path q n2 (insert_path q n1 fs) = insert_path q n2 fs.
Proof.
  revert fs. induction q as [|c q IH]; intros fs H; [done|].
  apply lookup_path_step in H as (m & n' & -> & E & H).
  destruct q as [|c' q].
  - by rewrite !insert_path_one, insert_insert_eq.
  - rewrite (insert_path_cons _ _ _ _ _ _ E).
    rewrite (insert_path_cons c c' q n2 (insert_path (c' :: q) n1 n'))
      by apply lookup_insert_eq.
    by rewrite insert_insert_eq, (IH _ H), (insert_path_cons _ _ _ _ _ _ E).
Qed.

Lemma delete_path_under (q p : list string) (fs nq : node) :
  lookup_path q fs = Some nq → p ≠ [] →
  delete_path (q ++ p) fs = insert_path q (delete_path p nq) fs.
Proof.
  intros H Hp. revert fs H. induction q as [|c q IH]; intros fs H.
  { by injection H as ->. }
  apply lookup_path_step in H as (m & n' & -> & E & H).
  destruct q as [|c' q].
  - injection H as ->. rewrite insert_path_one. destruct p as [|c' p]; [done|].
    change ([c] ++ c' :: p) with (c :: c' :: p).
    by rewrite (delete_path_cons _ _ _ _ _ E).
  - change ((c :: c' :: q) ++ p) with (c :: c' :: (q ++ p)).
    rewrite (delete_path_cons _ _ _ _ _ E), (insert_path_cons _ _ _ _ _ _ E).
    by rewrite <- (IH _ H).
Qed.

Lemma insert_path_under (q p : list string) (v fs nq : node) :
  lookup_path q fs = Some nq → p ≠ [] →
  insert_path (q ++ p) v fs = insert_path q (insert_path p v nq) fs.
Proof.
  intros H Hp. revert fs H. induction q as [|c q IH]; intros fs H.
  { by injection H as ->. }
  apply lookup_path_step in H as (m & n' & -> & E & H).
  destruct q as [|c' q].
  - injection H as ->. rewrite insert_path_one. destruct p as [|c' p]; [done|].
    change ([c] ++ c' :: p) with (c :: c' :: p).
    by rewrite (insert_path_cons _ _ _ _ _ _ E).
  - change ((c :: c' :: q) ++ p) with (c :: c' :: (q ++ p)).
    rewrite !(insert_path_cons _ _ _ _ _ _ E).
    by rewrite <- (IH _ H).
Qed.

Lemma delete_path_dir (p : list string) (m : gmap string node) :
  ∃ m', delete_path p (Dir m) = Dir m'.
Proof.
  destruct p as [|c [|c' p]]; simpl; eauto. destruct (m !! c); eauto.
Qed.

(** ** Plain names and the paths made of them *)

Lemma split_slash_append (c s : string) :
  has_slash c = false → split_slash (c +:+ "/" +:+ s) = c :: split_slash s.
Proof.
  induction c as [|a c IH]; [done|]. simpl.
  destruct (Ascii.eqb a slash); [done|]. simpl. intros H. by rewrite (IH H).
Qed.

Lemma split_join (parts : list string) :
  Forall plain_name parts → parts ≠ [] → split_slash (join_slash parts) = parts.
Proof.
  induction 1 as [|c parts Hc _ IH]; [done|]. intros _.
  destruct parts as [|c' parts].
  - apply split_slash_no_slash, Hc.
  - change (join_slash (c :: c' :: parts))
      with (c +:+ "/" +:+ join_slash (c' :: parts)).
    rewrite split_slash_append by apply Hc. by rewrite IH.
Qed.

Lemma proper_plain (parts : list string) :
  Forall plain_name parts → filter (λ c, Is_true (proper_part c)) parts = parts.
Proof.
  induction 1 as [|c parts (_ & H1 & H2 & _) _ IH]; [done|].
  rewrite filter_cons_True, IH; [done|]. unfold proper_part.
  destruct (String.eqb_spec c ""); [done|]. by destruct (String.eqb_spec c ".").
Qed.

Lemma path_of_string_join (parts : list string) :
  Forall plain_name parts → parts ≠ [] →
  path_of_string (join_slash parts) = mkPath false parts.
Proof.
  intros H Hne. pose proof (split_join parts H Hne) as Hs.
  destruct parts as [|c parts]; [done|].
  assert (∃ a s, join_slash (c :: parts) = String a s ∧ Ascii.eqb a slash = false)
    as (a & s & E & Ha).
  { apply Forall_cons in H as [(H1 & H2 & _) _].
    destruct c as [|a c]; [done|]. simpl in H1.
    apply orb_false_iff in H1 as [H1 _].
    destruct parts; simpl; eauto. }
  rewrite E in Hs |- *. unfold path_of_string. by rewrite Ha, Hs, proper_plain.
Qed.

Lemma path_of_string_plain (c : string) :
  plain_name c → path_of_string c = mkPath false [c].
Proof. intros H. apply (path_of_string_join [c]); [by constructor|done]. Qed.

Lemma step_part_plain (cur : list string) (c : string) :
  plain_name c → step_part cur c = cur ++ [c].
Proof.
  intros (_ & _ & H1 & H2). unfold step_part.
  destruct (String.eqb_spec c ".."); [done|]. by destruct (String.eqb_spec c ".").
Qed.

Lemma walk_plain (fs : node) (cur parts : list string) (v : node) :
  lookup_path (cur ++ parts) fs = Some v → Forall plain_name parts →
  walk fs cur parts = inr (cur ++ parts).
Proof.
  intros Hl H. revert cur Hl. induction H as [|c parts Hc _ IH]; intros cur Hl.
  { by rewrite app_nil_r. }
  destruct (lookup_path_through _ _ _ _ _ Hl) as [m Hm].
  cbn [walk]. rewrite Hm, step_part_plain by done.
  rewrite IH; rewrite <- app_assoc; done.
Qed.

Lemma walk_one (fs : node) (cur : list string) (c : string)
    (m : gmap string node) :
  lookup_path cur fs = Some (Dir m) → plain_name c →
  walk fs cur [c] = inr (cur ++ [c]).
Proof. intros Hm Hc. cbn [walk]. by rewrite Hm, step_part_plain. Qed.

Lemma stat_plain (fs : node) (cwd parts : list string) (s : nat) (v : node) :
  lookup_path (cwd ++ parts) fs = Some v → Forall plain_name parts →
  stat (mkWorld fs cwd s) (mkPath false parts) = inr (cwd ++ parts, v).
Proof.
  intros Hl H. unfold stat. cbn [p_abs p_parts w_fs w_cwd].
  by rewrite (walk_plain _ _ _ _ Hl H), Hl.
Qed.

Lemma test_name_plain (n : string) : plain_name n → plain_name (n +:+ "_test").
Proof.
  intros (H1 & H2 & _). destruct n as [|a n]; [done|].
  assert (∀ s, has_slash s = false → has_slash (s +:+ "_test") = false) as Hs.
  { induction s as [|b s IH]; [done|]. simpl.
    destruct (Ascii.eqb b slash); [done|]. apply IH. }
  split; [by apply Hs|]. split; [done|]. destruct n as [|b [|? ?]]; done.
Qed.

Lemma test_name_inj (n n' : string) : n +:+ "_test" = n' +:+ "_test" → n = n'.
Proof.
  revert n'. induction n as [|a n IH]; intros n' H.
  - destruct n' as [|a' n']; [done|]. simpl in H. injection H as -> H.
    by destruct n' as [|? [|? [|? [|? [|? ?]]]]].
  - destruct n' as [|a' n']; simpl in H.
    + injection H as -> H. by destruct n as [|? [|? [|? [|? [|? ?]]]]].
    + injection H as -> H. by rewrite (IH _ H).
Qed.

Lemma test_name_not_git (n : string) : n +:+ "_test" ≠ ".git".
Proof. by destruct n as [|? [|? [|? [|? [|? ?]]]]]. Qed.

(** ** Moves and deletions inside the clone *)

Lemma move_path_fresh (src dst : list string) (fs n : node)
    (m : gmap string node) :
  src ≠ [] → lookup_path src fs = Some n → lookup_path dst fs = None →
  lookup_path (removelast dst) (delete_path src fs) = Some (Dir m) →
  move_path src dst fs = Some (insert_path dst n (delete_path src fs)).
Proof.
  intros Hne Hs Hd Hp. unfold move_path.
  destruct src as [|c src]; [done|]. rewrite Hs, Hd. cbv zeta. by rewrite Hd, Hp.
Qed.

Lemma insert_path_head (x : string) (rest : list string) (v X : node)
    (m : gmap string node) :
  m !! x = Some X →
  insert_path (x :: rest) v (Dir m) = Dir (<[x := insert_path rest v X]> m).
Proof.
  intros E. destruct rest as [|c rest]; [done|]. by apply insert_path_cons.
Qed.

Section Clone.
Context (env : Env) (Hgit : git_mv_as_modelled env).
Context (fs0 : node) (q : list string) (R : gmap string node).
Context (Hq : lookup_path q fs0 = Some (Dir R)).

(** The file system, with [C] in the place of the clone. *)
#[warnings="-notation-for-abbreviation"]
Local Notation clone C := (insert_path q C fs0).

Lemma clone_lookup (p : list string) (C : node) :
  lookup_path (q ++ p) (clone C) = lookup_path p C.
Proof. by apply (insert_path_lookup _ _ _ _ _ Hq). Qed.

Lemma clone_root (C : node) : lookup_path q (clone C) = Some C.
Proof. rewrite <- (app_nil_r q) at 1. by rewrite clone_lookup. Qed.

Lemma clone_delete (p : list string) (C : node) :
  p ≠ [] → delete_path (q ++ p) (clone C) = clone (delete_path p C).
Proof.
  intros Hp. rewrite (delete_path_under _ _ _ _ (clone_root C) Hp).
  apply (insert_path_twice _ _ _ _ _ Hq).
Qed.

Lemma clone_insert (p : list string) (v C : node) :
  p ≠ [] → insert_path (q ++ p) v (clone C) = clone (insert_path p v C).
Proof.
  intros Hp. rewrite (insert_path_under _ _ _ _ _ (clone_root C) Hp).
  apply (insert_path_twice _ _ _ _ _ Hq).
Qed.

(** [git mv] of an entry below the clone to a free name at its root. *)
Lemma git_mv_clone (sp : list string) (d : string) (M : gmap string node)
    (v : node) (s : nat) :
  Forall plain_name sp → sp ≠ [] → plain_name d →
  lookup_path sp (Dir M) = Some v → M !! d = None →
  git_mv (join_slash sp) d (mkWorld (clone (Dir M)) q s) =
  Exits 0 (clone (insert_path [d] v (delete_path sp (Dir M)))).
Proof.
  intros Hsp Hne Hd Hv Hfree. unfold git_mv.
  rewrite (path_of_string_join _ Hsp Hne), (path_of_string_plain _ Hd).
  rewrite (stat_plain _ _ _ _ v); [|by rewrite clone_lookup|done].
  cbn [p_abs p_parts w_fs w_cwd].
  rewrite (walk_one _ _ _ M); [|by rewrite clone_root|done].
  destruct (delete_path_dir sp M) as [M1 HM1].
  rewrite (move_path_fresh _ _ _ v M1).
  - rewrite (clone_delete _ _ Hne), clone_insert by done. done.
  - by destruct q, sp.
  - by rewrite clone_lookup.
  - rewrite clone_lookup. cbn [lookup_path]. by rewrite Hfree.
  - rewrite removelast_last, (clone_delete _ _ Hne), clone_root. by rewrite HM1.
Qed.

Lemma run_git_mv (sp : list string) (d : string) (M : gmap string node)
    (v : node) (s : nat) (t : Z) :
  Forall plain_name sp → sp ≠ [] → plain_name d →
  lookup_path sp (Dir M) = Some v → M !! d = None →
  ∃ evs,
    _run_command env ["git"; "mv"; join_slash sp; d] false t
      (mkWorld (clone (Dir M)) q s) =
    mkOut evs (Ok tt)
      (mkWorld (clone (insert_path [d] v (delete_path sp (Dir M)))) q (S s)).
Proof.
  intros Hsp Hne Hd Hv Hfree. rewrite run_command_real.
  destruct (Hgit (join_slash sp) d (mkWorld (clone (Dir M)) q s))
    as (beh & -> & Hb).
  rewrite Hb, (git_mv_clone _ _ _ v) by done.
  destruct (decide (0 ≠ 0)); [done|]. cbn [w_cwd w_spawned]. eauto.
Qed.

Transparent rmtree.

(** [shutil.rmtree] of a directory at the root of the clone. *)
Lemma rmtree_clone (name : string) (M mm : gmap string node) (s : nat) :
  plain_name name → M !! name = Some (Dir mm) →
  rmtree name (mkWorld (clone (Dir M)) q s) =
  mkOut [EvRmtree name] (Ok tt) (mkWorld (clone (Dir (delete name M))) q s).
Proof.
  intros Hn HM. unfold rmtree, emit, get_world, put_fs, raise.
  rewrite !bind_run. cbn [out_res out_events out_world].
  destruct (String.eqb_spec name "") as [->|_]; [by destruct Hn as (_ & ? & _)|].
  rewrite (path_of_string_plain _ Hn).
  rewrite (stat_plain _ _ _ _ (Dir mm));
    [|rewrite clone_lookup; cbn [lookup_path]; by rewrite HM|by constructor].
  cbn [w_fs w_cwd w_spawned].
  rewrite clone_delete by done.
  destruct (q ++ [name]) eqn:E; [by destruct q|]. done.
Qed.

Opaque rmtree.


(** *** The three passes, in a clone in which they succeed *)

Context (roots : gset string) (x : string) (rest : list string) (t : Z).
Context (Hx : plain_name x) (Hrest : Forall plain_name rest).

#[warnings="-notation-for-abbreviation"]
Local Notation entry := (λ n, path_join (mkPath false (x :: rest)) (mkPath false [n])).
#[warnings="-notation-for-abbreviation"]
Local Notation moved := (moved_name roots).
#[warnings="-notation-for-abbreviation"]
Local Notation world M s := (mkWorld (insert_path q (Dir M) fs0) q s).

Lemma new_name_entry (n : string) : new_name roots (entry n) = moved n.
Proof.
  unfold moved_name, new_name, path_name, path_join. cbn [p_abs p_parts].
  by rewrite last_last.
Qed.

Lemma moved_plain (n : string) : plain_name n → plain_name (moved n).
Proof.
  intros H. unfold moved_name, new_name, path_name. cbn [p_parts List.last].
  destruct (bool_decide (n ∈ roots)); [by apply test_name_plain|done].
Qed.

Lemma target_lookup (M Tm : gmap string node) (X : node) :
  M !! x = Some X → lookup_path rest X = Some (Dir Tm) →
  lookup_path (x :: rest) (Dir M) = Some (Dir Tm).
Proof. intros HX HT. by rewrite lookup_path_cons, HX. Qed.

(** One move of the first pass. *)
Lemma move_entry (n : string) (M Tm : gmap string node) (X v : node) (s : nat)
    (skip : list (string * string)) :
  plain_name n → M !! x = Some X → lookup_path rest X = Some (Dir Tm) →
  Tm !! n = Some v → M !! moved n = None →
  ∃ evs,
    move_target env roots false t (entry n) skip (world M s) =
    mkOut evs (Ok (skip ++ collisions roots [entry n]))
      (world (<[moved n := v]> (<[x := insert_path rest (Dir (delete n Tm)) X]> M))
             (S s)).
Proof.
  intros Hn HX HT Hv Hfree. rewrite move_target_run. cbv zeta.
  rewrite new_name_entry.
  pose proof (target_lookup _ _ _ HX HT) as Ht.
  destruct (run_git_mv ((x :: rest) ++ [n]) (moved n) M v s t) as [evs E].
  - apply Forall_app. split; [by constructor|by constructor].
  - done.
  - by apply moved_plain.
  - rewrite lookup_path_app, Ht. cbn [mbind option_bind lookup_path]. by rewrite Hv.
  - done.
  - change (path_str (path_join (mkPath false (x :: rest)) (mkPath false [n])))
      with (join_slash ((x :: rest) ++ [n])).
    rewrite E. cbn [out_events out_res out_world]. eexists. f_equal. f_equal.
    rewrite (delete_path_under _ _ _ _ Ht) by done.
    by rewrite delete_path_one, (insert_path_head _ _ _ _ _ HX), insert_path_one.
Qed.

(** The first pass: every entry of the target directory gets to the
    root, under its own name when that is free and under the temporary
    one otherwise; nothing else at the root changes but the directory [x]
    they come from. *)
Lemma flatten_moves (names : list string) (skip : list (string * string))
    (M Tm : gmap string node) (s : nat) :
  NoDup names →
  (∀ n, n ∈ names → plain_name n ∧ is_Some (Tm !! n) ∧ M !! moved n = None) →
  (∀ n n', n ∈ names → n' ∈ names → moved n = moved n' → n = n') →
  (∃ X, M !! x = Some X ∧ lookup_path rest X = Some (Dir Tm)) →
  ∃ evs M' s',
    for_each (entry <$> names) skip (move_target env roots false t) (world M s) =
    mkOut evs (Ok (skip ++ collisions roots (entry <$> names))) (world M' s') ∧
    (∃ X' Tm', M' !! x = Some X' ∧ lookup_path rest X' = Some (Dir Tm')) ∧
    (∀ n, n ∈ names → M' !! moved n = Tm !! n) ∧
    (∀ k, k ≠ x → (∀ n, n ∈ names → moved n ≠ k) → M' !! k = M !! k).
Proof.
  intros Hnd. revert skip M Tm s.
  induction Hnd as [|n names Hn Hnd IH]; intros skip M Tm s Hall Hinj (X & HX & HT).
  { exists [], M, s. rewrite app_nil_r. split; [done|]. split; [by eauto|].
    split; [by intros ? ?%elem_of_nil|done]. }
  destruct (Hall n) as (Hp & [v Hv] & Hfree); [by left|].
  assert (moved n ≠ x) as Hmx by (intros E; by rewrite E, HX in Hfree).
  rewrite fmap_cons, for_each_cons, bind_run.
  destruct (move_entry n M Tm X v s skip Hp HX HT Hv Hfree) as [ev1 ->].
  cbn [out_events out_res out_world].
  set (X1 := insert_path rest (Dir (delete n Tm)) X).
  set (M1 := <[moved n := v]> (<[x := X1]> M)).
  destruct (IH (skip ++ collisions roots [entry n]) M1 (delete n Tm) (S s))
    as (ev2 & M' & s' & -> & HX' & Hin & Hout).
  - intros n' Hn'. destruct (Hall n') as (Hp' & Hs' & Hf'); [by right|].
    assert (n' ≠ n) as Hne by (intros ->; done).
    split; [done|]. split; [by rewrite lookup_delete_ne|].
    unfold M1. rewrite lookup_insert_ne.
    + rewrite lookup_insert_ne; [done|]. intros E. by rewrite <- E, HX in Hf'.
    + intros E. apply Hne. symmetry. apply Hinj; [by left|by right|done].
  - intros a b Ha Hb. apply Hinj; by right.
  - exists X1. split.
    + unfold M1. by rewrite lookup_insert_ne, lookup_insert_eq.
    + unfold X1. rewrite <- (app_nil_r rest) at 1.
      by rewrite (insert_path_lookup _ _ _ _ _ HT).
  - cbn [out_events out_res out_world].
    exists (ev1 ++ ev2), M', s'. split.
    { by rewrite (collisions_cons roots
                    (path_join (mkPath false (x :: rest)) (mkPath false [n]))
                    (entry <$> names)), app_assoc. }
    split; [done|]. split.
    + intros n' [->|Hn']%elem_of_cons.
      * rewrite Hout; [unfold M1; by rewrite lookup_insert_eq|done|].
        intros n' Hn' E. apply Hn.
        by rewrite (Hinj n n' ltac:(by left) ltac:(by right) (eq_sym E)).
      * rewrite (Hin _ Hn'). apply lookup_delete_ne. by intros ->.
    + intros k Hk Hnot. rewrite Hout; [|done|].
      * unfold M1. rewrite !lookup_insert_ne; [done|done|].
        apply Hnot. by left.
      * intros n' Hn'. apply Hnot. by right.
Qed.

(** The second pass: every root entry but [.git] is removed. *)
Lemma flatten_deletions (names : list string) (M : gmap string node) (s : nat) :
  NoDup names →
  (∀ k, k ∈ names →
     plain_name k ∧ (k ≠ ".git" → ∃ mm, M !! k = Some (Dir mm))) →
  ∃ evs M',
    for_each names tt remove_root (world M s) = mkOut evs (Ok tt) (world M' s) ∧
    ∀ k, M' !! k = if decide (k ∈ names ∧ k ≠ ".git") then None else M !! k.
Proof.
  intros Hnd. revert M. induction Hnd as [|n names Hn Hnd IH]; intros M Hall.
  { exists [], M. split; [done|]. intros k. case_decide as H; [|done].
    by destruct H as [?%elem_of_nil _]. }
  rewrite for_each_cons, bind_run, remove_root_run.
  destruct (Hall n) as [Hp Hd]; [by left|].
  destruct (String.eqb_spec n ".git") as [->|Hg].
  - cbn [out_events out_res out_world].
    destruct (IH M) as (evs & M' & -> & HM').
    { intros k Hk. apply Hall. by right. }
    exists evs, M'. split; [done|]. intros k. rewrite HM'.
    repeat case_decide; try done.
    + exfalso. destruct H as [Hk Hne]. apply H0. split; [by right|done].
    + exfalso. destruct H0 as [[->|Hk]%elem_of_cons Hne]; [done|]. by apply H.
  - destruct (Hd Hg) as [mm Hmm]. rewrite (rmtree_clone _ _ mm) by done.
    cbn [out_events out_res out_world].
    destruct (IH (delete n M)) as (evs & M' & -> & HM').
    { intros k Hk. destruct (Hall k) as [Hpk Hdk]; [by right|].
      split; [done|]. intros Hkg. destruct (Hdk Hkg) as [mk Hmk].
      exists mk. rewrite lookup_delete_ne; [done|]. by intros ->. }
    cbn [out_events out_res out_world]. eexists _, M'. split; [done|].
    intros k. rewrite HM'. repeat case_decide; try done.
    + exfalso. destruct H as [Hk Hne]. apply H0. split; [by right|done].
    + destruct H0 as [[->|Hk]%elem_of_cons Hne].
      * by rewrite lookup_delete_eq.
      * exfalso. by apply H.
    + rewrite lookup_delete_ne; [done|]. intros ->. apply H0. split; [by left|done].
Qed.

(** The last pass: every temporary name is given up for the final one. *)
Lemma flatten_renames (pairs : list (string * string)) (M : gmap string node)
    (s : nat) :
  NoDup pairs.*1 → NoDup pairs.*2 →
  (∀ a b, (a, b) ∈ pairs →
     plain_name a ∧ plain_name b ∧ is_Some (M !! a) ∧ M !! b = None) →
  (∀ a, a ∈ pairs.*1 → a ∉ pairs.*2) →
  ∃ evs M' s',
    for_each pairs tt (move_back env false t) (world M s) =
    mkOut evs (Ok tt) (world M' s') ∧
    (∀ a b, (a, b) ∈ pairs → M' !! b = M !! a ∧ M' !! a = None) ∧
    (∀ k, k ∉ pairs.*1 → k ∉ pairs.*2 → M' !! k = M !! k).
Proof.
  revert M s. induction pairs as [|[a b] pairs IH]; intros M s Hnd1 Hnd2 Hall Hdis.
  { exists [], M, s. split; [done|]. split; [by intros ? ? ?%elem_of_nil|done]. }
  rewrite !fmap_cons in Hnd1, Hnd2, Hdis. cbn [fst snd] in Hnd1, Hnd2, Hdis.
  apply NoDup_cons in Hnd1 as [Ha Hnd1]. apply NoDup_cons in Hnd2 as [Hb Hnd2].
  destruct (Hall a b) as (Hpa & Hpb & [v Hv] & Hfree); [by left|].
  assert (a ≠ b) as Hab by (intros ->; by rewrite Hv in Hfree).
  rewrite for_each_cons, bind_run, move_back_run. cbv zeta.
  destruct (run_git_mv [a] b M v s t) as [ev1 E]; try done.
  { by constructor. }
  { cbn [lookup_path]. by rewrite Hv. }
  change (join_slash [a]) with a in E. rewrite E.
  cbn [out_events out_res out_world].
  rewrite delete_path_one, insert_path_one.
  set (M1 := <[b := v]> (delete a M)).
  assert (∀ a' b', (a', b') ∈ pairs → a' ≠ a ∧ a' ≠ b ∧ b' ≠ b ∧ b' ≠ a) as Hne.
  { intros a' b' Hin.
    assert (a' ∈ pairs.*1) as H1 by (apply list_elem_of_fmap; by exists (a', b')).
    assert (b' ∈ pairs.*2) as H2 by (apply list_elem_of_fmap; by exists (a', b')).
    split_and!; intros ->; try done.
    - apply (Hdis b); [by right|by left].
    - apply (Hdis a); [by left|by right]. }
  destruct (IH M1 (S s)) as (ev2 & M' & s' & -> & Hin & Hout); try done.
  - intros a' b' Hin. destruct (Hne _ _ Hin) as (N1 & N2 & N3 & N4).
    destruct (Hall a' b') as (? & ? & Hs & Hf); [by right|].
    split; [done|]. split; [done|]. unfold M1.
    rewrite !lookup_insert_ne by done. rewrite !lookup_delete_ne by done. done.
  - intros a' Ha' Hb'. apply (Hdis a'); by right.
  - cbn [out_events out_res out_world]. eexists _, M', s'.
    split; [done|]. split.
    + intros a' b' [[= -> ->]|Hin']%elem_of_cons.
      * rewrite !Hout; try done.
        -- unfold M1. rewrite lookup_insert_eq, lookup_insert_ne by done.
           by rewrite lookup_delete_eq.
        -- intros H. apply (Hdis a); [by left|by right].
        -- intros H. apply (Hdis b); [by right|by left].
      * destruct (Hne _ _ Hin') as (N1 & N2 & N3 & N4).
        destruct (Hin _ _ Hin') as [-> ->]. split; [|done]. unfold M1.
        rewrite lookup_insert_ne by done. by rewrite lookup_delete_ne.
    + intros k Hk1 Hk2. apply not_elem_of_cons in Hk1 as [? ?].
      apply not_elem_of_cons in Hk2 as [? ?]. rewrite Hout by done.
      unfold M1. rewrite lookup_insert_ne by done. by rewrite lookup_delete_ne.
Qed.

End Clone.

Transparent absolute getcwd.

Lemma absolute_there (p : Path) (w : World) (m : gmap string node) :
  lookup_path (w_cwd w) (w_fs w) = Some (Dir m) →
  absolute p w = mkOut [] (Ok (path_join (mkPath true (w_cwd w)) p)) w.
Proof.
  intros H. unfold absolute, path_join. destruct (p_abs p); [done|].
  rewrite bind_run. unfold getcwd. by rewrite H.
Qed.

Opaque absolute getcwd.

Lemma stat_lookup (w : World) (p : Path) (q : list string) (n : node) :
  stat w p = inr (q, n) → lookup_path q (w_fs w) = Some n.
Proof.
  unfold stat. destruct (walk _ _ _) as [k|q']; [done|].
  destruct (lookup_path q' (w_fs w)) as [n'|] eqn:E; [|done]. by intros [= <- <-].
Qed.

Lemma flattened_lookup (R T : gmap string node) (k : string) :
  flattened R T !! k =
  match T !! k with
  | Some v => Some v
  | None => if decide (k = ".git") then R !! k else None
  end.
Proof.
  unfold flattened. rewrite lookup_union.
  destruct (T !! k) as [v|]; [by rewrite union_Some_l|].
  rewrite left_id by apply _. case_decide as H.
  - destruct (R !! k) as [r|] eqn:E.
    + by apply map_lookup_filter_Some.
    + apply map_lookup_filter_None. left. done.
  - apply map_lookup_filter_None. right. intros r _. done.
Qed.

Lemma collisions_names (roots : gset string) (target : Path) (names : list string) :
  collisions roots ((λ n, path_join target (mkPath false [n])) <$> names) =
  (λ n, (n +:+ "_test", n)) <$> filter (λ n, n ∈ roots) names.
Proof.
  assert (∀ n, path_name (path_join target (mkPath false [n])) = n) as Hn.
  { intros n. unfold path_name, path_join. cbn [p_abs p_parts].
    by rewrite last_last. }
  induction names as [|n names IH]; [done|].
  rewrite fmap_cons, collisions_cons, IH. unfold collisions at 1.
  cbn [omap list_omap]. rewrite Hn. case_bool_decide as H.
  - by rewrite filter_cons_True.
  - by rewrite filter_cons_False.
Qed.

Lemma moved_name_eq (roots : gset string) (n : string) :
  moved_name roots n = if bool_decide (n ∈ roots) then n +:+ "_test" else n.
Proof. done. Qed.

Lemma lookup_dir_is_dir (p : list string) (X : node) (m : gmap string node) :
  lookup_path p X = Some (Dir m) → ∃ mm, X = Dir mm.
Proof.
  destruct p as [|c p]; [intros [= ->]; by eauto|].
  intros (mm & ? & -> & _)%lookup_path_step. by eauto.
Qed.

Transparent _change_root_directory.

(** X17: what Root Flattening achieves in a real run.  The clone is the
    directory [q] with the entries [R]; the target directory is given by
    the plain components [x :: rest], lies in the clone outside [.git]
    and has the entries [T]; the entries of the clone other than [.git]
    are directories; an entry of [T] whose name is taken at the root is
    not [.git], and its name with [_test] appended is free at the root
    and in [T]; [git mv] moves as git does.  Then the step leaves the
    file system as it was but for the clone, whose entries are now those
    of [T] and [.git]; and it returns normally, in the directory it was
    called in, if that directory can still be entered. *)
Theorem root_flattening_result (env : Env) (clone_dir : Path) (x : string)
    (rest : list string) (t : Z) (w : World) (q : list string)
    (R T : gmap string node) :
  git_mv_as_modelled env →
  (∃ m, lookup_path (w_cwd w) (w_fs w) = Some (Dir m)) →
  stat w (path_join (mkPath true (w_cwd w)) clone_dir) = inr (q, Dir R) →
  lookup_path (q ++ x :: rest) (w_fs w) = Some (Dir T) →
  Forall plain_name (x :: rest) → x ≠ ".git" →
  set_Forall plain_name (dom R) →
  map_Forall (λ k n, k ≠ ".git" → is_dir n = true) R →
  set_Forall (λ n, plain_name n ∧
                   (n ∈ dom R → n ≠ ".git" ∧ ((n +:+ "_test") ∉ dom R) ∧
                                ((n +:+ "_test") ∉ dom T))) (dom T) →
  let o := _change_root_directory env clone_dir (mkPath false (x :: rest))
             false t w in
  w_fs (out_world o) = insert_path q (Dir (flattened R T)) (w_fs w) ∧
  lookup_path q (w_fs (out_world o)) = Some (Dir (flattened R T)) ∧
  (dir_reachable (w_fs (out_world o)) (w_cwd w) →
   out_res o = Ok tt ∧ w_cwd (out_world o) = w_cwd w).
Proof.
  intros Hgit [mc Hcwd] Hstat HT Hpl Hxg HRp HRd HTn. cbn zeta.
  pose proof (stat_lookup _ _ _ _ Hstat) as Hq.
  apply Forall_cons in Hpl as [Hx Hrest].
  unfold _change_root_directory.
  rewrite bind_run, (absolute_there _ _ _ Hcwd).
  cbn [out_events out_res out_world].
  match goal with |- context [_working_directory _ ?b w] => set (body := b) end.
  destruct (working_directory_cases
              (path_join (mkPath true (w_cwd w)) clone_dir) body w)
    as [(lead & e & _ & [Hn|Hn] & _)|(q' & m' & Hs & ->)].
  { exfalso. apply Hn. by eauto. }
  { exfalso. apply Hn. by eauto. }
  rewrite Hstat in Hs. injection Hs as <- <-.
  cbn zeta. cbn [out_events out_res out_world].
  assert (∃ evs s', body (mkWorld (w_fs w) q (w_spawned w)) =
            mkOut evs (Ok tt)
              (mkWorld (insert_path q (Dir (flattened R T)) (w_fs w)) q s'))
    as (evs & s' & ->).
  2:{ cbn [out_events out_res out_world]. rewrite chdir_fs. cbn [w_fs].
      split; [done|]. split.
      { rewrite <- (app_nil_r q) at 1.
        by rewrite (insert_path_lookup _ _ _ _ _ Hq). }
      intros Hback.
      by rewrite (chdir_back (w_cwd w)
                    (mkWorld (insert_path q (Dir (flattened R T)) (w_fs w)) q s')
                    Hback). }
  (* the two listings *)
  unfold body. clear body.
  rewrite bind_run, iterdir_run.
  assert (stat (mkWorld (w_fs w) q (w_spawned w)) (mkPath false []) = inr (q, Dir R))
    as -> by (unfold stat; cbn [p_abs p_parts w_fs w_cwd walk]; by rewrite Hq).
  cbn [out_events out_res out_world]. rewrite root_names.
  rewrite bind_run, iterdir_run, (stat_plain _ _ _ _ (Dir T) HT)
    by (by constructor).
  cbn [out_events out_res out_world].
  set (names := env_scandir env (map_to_list T).*1).
  assert (Hnames : ∀ n, n ∈ names ↔ n ∈ dom T).
  { intros n. unfold names. rewrite (env_scandir_perm env), elem_of_dom.
    rewrite list_elem_of_fmap. split.
    - intros [[k v] [-> Hv]]. apply elem_of_map_to_list in Hv. by eexists.
    - intros [v Hv]. exists (n, v). split; [done|]. by apply elem_of_map_to_list. }
  assert (Hnd : NoDup names).
  { unfold names. rewrite (env_scandir_perm env). apply NoDup_fst_map_to_list. }
  assert (Hmoved : ∀ n, n ∈ dom T → moved_name (dom R) n ∉ dom R).
  { intros n Hn. rewrite moved_name_eq. case_bool_decide as Hc; [|done].
    by destruct (HTn n Hn) as [_ Hcoll], (Hcoll Hc) as (_ & ? & _). }
  assert (HRx : ∃ X, R !! x = Some X ∧ lookup_path rest X = Some (Dir T)).
  { rewrite lookup_path_app, Hq in HT. cbn [mbind option_bind] in HT.
    rewrite lookup_path_cons in HT. destruct (R !! x) as [X|]; [|done]. by eauto. }
  (* the first pass *)
  replace (mkWorld (w_fs w) q (w_spawned w))
    with (mkWorld (insert_path q (Dir R) (w_fs w)) q (w_spawned w))
    by (by rewrite (insert_path_same _ _ _ Hq)).
  rewrite bind_run.
  destruct (flatten_moves env Hgit (w_fs w) q R Hq (dom R) x rest t Hx Hrest
              names [] R T (w_spawned w))
    as (ev1 & M1 & s1 & -> & (X1 & T1 & HX1 & HT1) & Hin1 & Hout1); [done| | |done|].
  { intros n Hn%Hnames. split; [by destruct (HTn n Hn)|].
    split; [by apply elem_of_dom|]. by apply not_elem_of_dom, Hmoved. }
  { intros n n' Hn%Hnames Hn'%Hnames. rewrite !moved_name_eq.
    destruct (HTn n Hn) as [_ Hc], (HTn n' Hn') as [_ Hc'].
    repeat case_bool_decide; try done.
    - apply test_name_inj.
    - intros E. destruct (Hc ltac:(done)) as (_ & _ & ?). by rewrite E in *.
    - intros E. destruct (Hc' ltac:(done)) as (_ & _ & ?). by rewrite <- E in *. }
  cbn [out_events out_res out_world app].
  (* the deletions *)
  rewrite bind_run.
  destruct (flatten_deletions (w_fs w) q R Hq
              (env_set_iter env (elements (dom R))) M1 s1)
    as (ev2 & M2 & -> & HM2).
  { rewrite (env_set_iter_perm env). apply NoDup_elements. }
  { intros k Hk. rewrite (env_set_iter_perm env), elem_of_elements in Hk.
    split; [by apply HRp|]. intros Hg.
    destruct (decide (k = x)) as [->|Hkx].
    - destruct (lookup_dir_is_dir _ _ _ HT1) as [mm ->]. by eauto.
    - rewrite Hout1; [|done|].
      + apply elem_of_dom in Hk as [r Hr]. rewrite Hr.
        specialize (HRd k r Hr Hg). destruct r as [|mm]; [done|]. by eauto.
      + intros n Hn%Hnames E. apply (Hmoved n Hn). by rewrite E. }
  cbn [out_events out_res out_world].
  assert (HM2' : ∀ k, M2 !! k = if decide (k ∈ dom R ∧ k ≠ ".git") then None
                                else M1 !! k).
  { intros k. rewrite HM2. repeat case_decide; try done.
    - exfalso. rewrite (env_set_iter_perm env), elem_of_elements in *. tauto.
    - exfalso. rewrite (env_set_iter_perm env), elem_of_elements in *. tauto. }
  clear HM2.
  (* the renames *)
  rewrite collisions_names.
  set (pairs := (λ n, (n +:+ "_test", n)) <$> filter (λ n, n ∈ dom R) names).
  assert (Hpairs : ∀ a b, (a, b) ∈ pairs ↔ b ∈ dom T ∧ b ∈ dom R ∧ a = b +:+ "_test").
  { intros a b. unfold pairs. rewrite list_elem_of_fmap. split.
    - intros (n & [= -> ->] & Hn). apply list_elem_of_filter in Hn as [? ?%Hnames].
      done.
    - intros (Hb & Hc & ->). exists b. split; [done|].
      apply list_elem_of_filter. split; [done|]. by apply Hnames. }
  assert (Hp1 : ∀ a, a ∈ pairs.*1 ↔ ∃ b, b ∈ dom T ∧ b ∈ dom R ∧ a = b +:+ "_test").
  { intros a. rewrite list_elem_of_fmap. split.
    - intros ([a' b] & -> & Hin). exists b. by apply Hpairs.
    - intros (b & Hb). exists (a, b). split; [done|]. by apply Hpairs. }
  assert (Hp2 : ∀ b, b ∈ pairs.*2 ↔ b ∈ dom T ∧ b ∈ dom R).
  { intros b. rewrite list_elem_of_fmap. split.
    - intros ([a b'] & -> & Hin). apply Hpairs in Hin. tauto.
    - intros [? ?]. exists (b +:+ "_test", b). split; [done|]. by apply Hpairs. }
  destruct (flatten_renames env Hgit (w_fs w) q R Hq t pairs M2 s1)
    as (ev3 & M3 & s3 & -> & Hin3 & Hout3).
  { unfold pairs. rewrite <- list_fmap_compose.
    apply NoDup_fmap_2; [|by apply NoDup_filter].
    intros a b. apply test_name_inj. }
  { unfold pairs.
    assert (∀ l : list string, ((λ n, (n +:+ "_test", n)) <$> l).*2 = l) as ->.
    { induction l as [|n l IH]; [done|]. by rewrite !fmap_cons, IH. }
    by apply NoDup_filter. }
  { intros a b (Hb & Hc & ->)%Hpairs.
    destruct (HTn b Hb) as [Hpb Hcoll], (Hcoll Hc) as (Hg & HnR & HnT).
    split; [by apply test_name_plain|]. split; [done|].
    rewrite !HM2'. rewrite decide_False by tauto. rewrite decide_True by done.
    split; [|done].
    pose proof (Hin1 b (proj2 (Hnames b) Hb)) as E.
    rewrite moved_name_eq, bool_decide_eq_true_2 in E by done. rewrite E.
    by apply elem_of_dom. }
  { intros a (b & Hb & Hc & ->)%Hp1 [Ha _]%Hp2.
    by destruct (HTn b Hb) as [_ Hcoll], (Hcoll Hc) as (_ & _ & ?). }
  cbn [out_events out_res out_world].
  eexists _, s3. f_equal. f_equal. f_equal. f_equal.
  (* what is at the root in the end *)
  assert (Hnot1 : ∀ k, k ∈ dom R ∨ k ∈ dom T ∨ k = ".git" → k ∉ pairs.*1).
  { intros k Hk (b & Hb & Hc & ->)%Hp1.
    destruct (HTn b Hb) as [_ Hcoll], (Hcoll Hc) as (_ & ? & ?).
    destruct Hk as [?|[?|?]]; [done|done|]. by apply (test_name_not_git b). }
  apply map_eq. intros k. rewrite flattened_lookup.
  destruct (T !! k) as [v|] eqn:Tk.
  - assert (k ∈ dom T) as HkT by (by apply elem_of_dom).
    pose proof (Hin1 k (proj2 (Hnames k) HkT)) as E1. rewrite moved_name_eq in E1.
    destruct (decide (k ∈ dom R)) as [Hc|Hc].
    + destruct (HTn k HkT) as [_ Hcoll], (Hcoll Hc) as (Hg & HnR & HnT).
      rewrite bool_decide_eq_true_2 in E1 by done.
      destruct (Hin3 (k +:+ "_test") k) as [-> _]; [by apply Hpairs|].
      rewrite HM2', decide_False by tauto. by rewrite E1.
    + rewrite bool_decide_eq_false_2 in E1 by done.
      rewrite Hout3; [|apply Hnot1; tauto|rewrite Hp2; tauto].
      rewrite HM2', decide_False by tauto. by rewrite E1.
  - assert (k ∉ dom T) as HkT by (by apply not_elem_of_dom).
    assert (k ∉ pairs.*2) as Hk2 by (rewrite Hp2; tauto).
    case_decide as Hg.
    + subst k. rewrite Hout3; [|apply Hnot1; tauto|done].
      rewrite HM2', decide_False by tauto.
      apply Hout1; [done|]. intros n Hn%Hnames. rewrite moved_name_eq.
      case_bool_decide; [apply test_name_not_git|by intros ->].
    + destruct (decide (k ∈ dom R)) as [Hc|Hc].
      * rewrite Hout3; [|apply Hnot1; tauto|done].
        by rewrite HM2', decide_True.
      * destruct (decide (k ∈ pairs.*1)) as [Hk1|Hk1].
        -- apply Hp1 in Hk1 as (b & Hb & Hcb & ->).
           by destruct (Hin3 (b +:+ "_test") b) as [_ ->]; [apply Hpairs|].
        -- rewrite Hout3, HM2', decide_False by tauto.
           rewrite Hout1; [by apply not_elem_of_dom| |].
           ++ intros ->. destruct HRx as (X & HX & _). apply Hc.
              by apply elem_of_dom.
           ++ intros n Hn%Hnames. rewrite moved_name_eq.
              case_bool_decide as Hcn.
              ** intros <-. apply Hk1, Hp1. by exists n.
              ** by intros ->.
Qed.

Opaque _change_root_directory.

Lemma root_flattening_result_witness :
  let o := _change_root_directory demo_env (path_of_string "data/raw/mono")
             (mkPath false ["libs"; "widget"]) false 30 stale_world in
  lookup_path ["work"; "data"; "raw"; "mono"] (w_fs (out_world o)) =
    Some (Dir {[ ".git" := Dir ∅;
                 "a.txt" := File "a";
                 "index.md" := File "index";
                 "libs" := Dir {[ "c.txt" := File "c" ]} ]}) ∧
  out_res o = Ok tt.
Proof.
  destruct (root_flattening_result demo_env (path_of_string "data/raw/mono")
              "libs" ["widget"] 30 stale_world ["work"; "data"; "raw"; "mono"]
              {[ ".git" := Dir ∅;
                 "libs" := Dir {[ "widget" :=
                   Dir {[ "a.txt" := File "a";
                          "index.md" := File "index";
                          "libs" := Dir {[ "c.txt" := File "c" ]} ]} ]} ]}
              {[ "a.txt" := File "a";
                 "index.md" := File "index";
                 "libs" := Dir {[ "c.txt" := File "c" ]} ]})
    as (Hfs & Hroot & Hback).
  - intros s d w. eexists. split; [reflexivity|]. intros t. reflexivity.
  - eexists. vm_compute. reflexivity.
  - vm_compute. reflexivity.
  - vm_compute. reflexivity.
  - apply (bool_decide_unpack _). vm_compute. exact I.
  - discriminate.
  - apply (bool_decide_unpack _). vm_compute. exact I.
  - apply (bool_decide_unpack _). vm_compute. exact I.
  - apply (bool_decide_unpack _). vm_compute. exact I.
  - cbv zeta. split.
    + rewrite Hroot. vm_compute. reflexivity.
    + apply Hback. rewrite Hfs. split; [vm_compute; reflexivity|].
      eexists. vm_compute. reflexivity.
Defined.

(** ** The commands of a whole run *)

Lemma bind_ok {A B} (m : M A) (f : A → M B) (w : World) (b : B) :
  out_res ((m ≫= f) w) = Ok b →
  ∃ a, out_res (m w) = Ok a ∧ out_res (f a (out_world (m w))) = Ok b ∧
       out_events ((m ≫= f) w) =
       out_events (m w) ++ out_events (f a (out_world (m w))).
Proof.
  rewrite bind_run. destruct (out_res (m w)) as [a|e]; [|done].
  cbn [out_res out_events]. by eauto.
Qed.

Lemma issues_ok {A} (cmds : list (list string)) (m : M A) (w : World) (a : A) :
  issues cmds m → out_res (m w) = Ok a → commands (out_events (m w)) = cmds.
Proof. intros H. apply (H w). Qed.

Transparent absolute getcwd.

Lemma absolute_ok (p : Path) (w : World) (d : Path) :
  out_res (absolute p w) = Ok d → d = path_join (mkPath true (w_cwd w)) p.
Proof.
  unfold absolute, path_join. destruct (p_abs p); [by intros [= <-]|].
  rewrite bind_run. destruct (getcwd_run w) as [->|[e ->]]; [|done].
  by intros [= <-].
Qed.

Opaque absolute getcwd.

Transparent _check_tools _filter_history _change_root_directory _git_commit
  _git_rename _git_push _create_gh_repo_and_set_upstream _gh_repo_archive.

Lemma bind_cwd {A B} (m : M A) (f : A → M B) :
  (∀ w, w_cwd (out_world (m w)) = w_cwd w) →
  (∀ a w, w_cwd (out_world (f a w)) = w_cwd w) →
  ∀ w, w_cwd (out_world ((m ≫= f) w)) = w_cwd w.
Proof.
  intros Hm Hf w. rewrite bind_run. destruct (out_res (m w)); cbn [out_world].
  - by rewrite Hf, Hm.
  - apply Hm.
Qed.

Lemma check_tools_true (env : Env) (dry : bool) (t : Z) (w : World) :
  out_res (_check_tools env dry t w) = Ok true →
  commands (out_events (_check_tools env dry t w)) = tool_commands ∧
  w_cwd (out_world (_check_tools env dry t w)) = w_cwd w.
Proof.
  unfold _check_tools, try_except.
  match goal with |- context [out_res (?b w)] => set (body := b) end.
  assert (Hcwd : w_cwd (out_world (body w)) = w_cwd w).
  { unfold body. revert w.
    repeat (apply bind_cwd; [intros w; apply run_command_cwd|intros _]).
    done. }
  destruct (out_res (body w)) as [a|e] eqn:E.
  - intros _. split; [|done].
    apply (issues_ok _ _ _ a); [|done]. unfold body, tool_commands.
    apply (issues_bind [_] [_; _]); [apply issues_run_command|intros _].
    apply (issues_bind [_] [_]); [apply issues_run_command|intros _].
    apply (issues_bind [_] []); [apply issues_run_command|intros _].
    apply issues_ret.
  - destruct e; unfold log, emit, mbind, M_bind, mret, M_ret;
      cbn [out_res out_events out_world]; rewrite ?E; done.
Qed.

Lemma filter_history_ok (env : Env) (src : string) (target clone : Path)
    (dry : bool) (t : Z) (w : World) :
  out_res (_filter_history env src target clone dry t w) = Ok tt →
  commands (out_events (_filter_history env src target clone dry t w)) =
  [["gh"; "repo"; "clone"; src; path_str (path_join (mkPath true (w_cwd w)) clone)];
   ["git"; "filter-repo"; "--path"; replace_backslash (path_str target)]].
Proof.
  unfold _filter_history. intros H.
  apply bind_ok in H as (dir & Hd & H & ->).
  rewrite (proj1 (absolute_run clone w)), app_nil_l.
  rewrite (proj2 (absolute_run clone w)) in *.
  apply absolute_ok in Hd as ->.
  apply (issues_ok _ _ _ tt); [|done].
  apply (issues_bind [_] [_]); [apply issues_run_command|intros _].
  apply (issues_bind [] [_]); [apply issues_absolute|intros d].
  apply issues_working_directory, issues_run_command.
Qed.

Lemma issues_git_commit (env : Env) (git_directory : Path)
    (user_name user_email : option string) (message : string) (dry : bool)
    (t : Z) :
  issues (commit_commands user_name user_email message)
    (_git_commit env git_directory user_name user_email message dry t).
Proof.
  unfold _git_commit, commit_commands.
  apply (issues_bind []); [apply issues_absolute|intros dir].
  apply issues_working_directory.
  apply issues_bind.
  { destruct user_name; [apply issues_run_command|apply issues_ret]. }
  intros _. apply issues_bind.
  { destruct user_email; [apply issues_run_command|apply issues_ret]. }
  intros _. apply (issues_bind [_] [_]); [apply issues_run_command|].
  intros _. apply issues_run_command.
Qed.

Lemma issues_publish (env : Env) (dir : Path) (repo remote : string)
    (public dry : bool) (t : Z) :
  issues [["gh"; "repo"; "create"; repo; if public then "--public" else "--private"];
          ["git"; "remote"; "add"; remote; "https://github.com/" +:+ repo +:+ ".git"]]
    (_create_gh_repo_and_set_upstream env dir repo remote public dry t).
Proof.
  apply (issues_bind [_] [_]); [apply issues_run_command|intros _].
  apply issues_working_directory, issues_run_command.
Qed.

Lemma issues_git_push (env : Env) (dir : Path) (remote branch : string)
    (dry : bool) (t : Z) :
  issues [["git"; "push"; remote; branch]] (_git_push env dir remote branch dry t).
Proof. apply issues_working_directory, issues_run_command. Qed.

(** The commands of Root Flattening when it returns: the moves of the
    first pass and the renames of the last one, for the entries found
    in the clone and in the target directory. *)
Lemma change_root_commands (env : Env) (clone target : Path) (dry : bool)
    (t : Z) (w : World) :
  out_res (_change_root_directory env clone target dry t w) = Ok tt →
  ∃ q m targets,
    stat w (path_join (mkPath true (w_cwd w)) clone) = inr (q, Dir m) ∧
    out_res (iterdir env target (mkWorld (w_fs w) q (w_spawned w))) = Ok targets ∧
    commands (out_events (_change_root_directory env clone target dry t w)) =
    first_moves (dom m) targets ++ second_moves (dom m) targets.
Proof.
  unfold _change_root_directory. intros H.
  apply bind_ok in H as (dir & Hd & H & ->).
  rewrite (proj1 (absolute_run clone w)), app_nil_l.
  rewrite (proj2 (absolute_run clone w)) in *.
  apply absolute_ok in Hd as ->.
  revert H.
  match goal with |- context [_working_directory ?d ?b w] =>
    destruct (working_directory_cases d b w)
      as [(lead & e & _ & _ & ->)|(q & m & Hs & ->)] end; [done|].
  cbn zeta. cbn [out_events out_res out_world].
  set (w1 := mkWorld (w_fs w) q (w_spawned w)).
  assert (Hroot : stat w1 (mkPath false []) = inr (q, Dir m)).
  { unfold stat. cbn [p_abs p_parts w_fs w_cwd w1 walk].
    by rewrite (stat_lookup _ _ _ _ Hs). }
  rewrite chdir_events.
  assert (∀ evs s s', commands (EvChdir s :: evs ++ [EvChdir s']) = commands evs)
    as ->.
  { intros evs s s'. change (commands (EvChdir s :: ?l)) with (commands l).
    by rewrite commands_app, app_nil_r. }
  destruct (out_res (chdir _ _)); [|done].
  rewrite bind_run, iterdir_run, Hroot. cbn [out_events out_res out_world].
  rewrite root_names. intros H.
  apply bind_ok in H as (targets & Ht & H & ->).
  assert (out_events (iterdir env target w1) = [] ∧
          out_world (iterdir env target w1) = w1) as [-> Hw].
  { rewrite iterdir_run. by destruct (stat w1 target) as [k|[? []]]. }
  rewrite Hw in *. cbn [app].
  apply bind_ok in H as (skip & H1 & H & ->).
  destruct (first_pass env (dom m) dry t targets [] w1) as (_ & _ & F3).
  destruct (F3 _ H1) as [F4 ->]. cbn [app] in *.
  apply bind_ok in H as ([] & H2 & H3 & ->).
  destruct (deletion_pass (env_set_iter env (elements (dom m)))
              (out_world (for_each targets [] (move_target env (dom m) dry t) w1)))
    as (D1 & _ & _).
  destruct (last_pass env dry t (collisions (dom m) targets)
              (out_world (for_each (env_set_iter env (elements (dom m))) tt
                 remove_root
                 (out_world (for_each targets []
                    (move_target env (dom m) dry t) w1)))))
    as (_ & _ & L3).
  exists q, m, targets. split; [done|]. split; [done|].
  cbn zeta in *. rewrite !commands_app, F4, D1, (L3 H3). done.
Qed.

(** The Rename Step on the map of [_main]: the rename is issued exactly
    if [index.md] is in the working tree. *)
Lemma git_rename_index (env : Env) (dir : Path) (dry : bool) (t : Z) (w : World)
    (b : bool) :
  let o := _git_rename env dir
             [(path_of_string "index.md", path_of_string "README.md")] dry t w in
  out_res o = Ok b →
  ∃ q m,
    stat w dir = inr (q, Dir m) ∧
    b = (match stat (mkWorld (w_fs w) q (w_spawned w)) (path_of_string "index.md")
         with inr _ => true | inl _ => false end) ∧
    commands (out_events o) =
    if b then [["git"; "mv"; "index.md"; "README.md"]] else [].
Proof.
  cbn zeta. unfold _git_rename.
  match goal with |- context [_working_directory dir ?b w] =>
    destruct (working_directory_cases dir b w)
      as [(lead & e & _ & _ & ->)|(q & m & Hs & ->)] end; [done|].
  cbn zeta. cbn [out_events out_res out_world].
  rewrite chdir_events.
  set (w1 := mkWorld (w_fs w) q (w_spawned w)).
  assert (∀ evs s, commands (EvChdir s :: evs ++ [EvChdir (path_str (mkPath true (w_cwd w)))])
                   = commands evs) as ->.
  { intros evs s. change (commands (EvChdir s :: ?l)) with (commands l).
    by rewrite commands_app, app_nil_r. }
  destruct (out_res (chdir _ _)); [|done].
  rewrite for_each_cons, bind_run. intros H. exists q, m. split; [done|].
  revert H. fold w1.
  destruct (stat w1 (path_of_string "index.md")) as [k|[q' n]] eqn:E.
  - rewrite (rename_one_absent _ _ _ _ _ _ _ _ E).
    cbn [out_events out_res out_world for_each mret M_ret].
    intros [= <-]. split; reflexivity.
  - rewrite (rename_one_present _ _ _ _ _ _ _ _ _ E), bind_run.
    pose proof (run_command_commands env
                  ["git"; "mv"; path_str (path_of_string "index.md");
                   path_str (path_of_string "README.md")] dry t w1) as Hc.
    destruct (_run_command env _ dry t w1) as [ev [[]|e] w']; [|done].
    simpl in *. intros [= <-]. rewrite !app_nil_r. split; [done|]. exact Hc.
Qed.

(** X18: when [_main] returns, the commands it handed to the Command
    Runner are, in this order: the three tool checks; the clone into
    the absolute path of [data/raw/<name>] and the history rewrite; the
    moves of Root Flattening, for the entries found in the clone and in
    its target directory after the rewrite; the commit of the new root;
    if and only if [index.md] was in the clone after that commit, its
    rename and a second commit; the creation of the destination
    repository, the registration of the remote and the push of
    [master]; and, if asked for, the archiving of the destination
    repository. *)
Theorem main_commands_in_order (env : Env) (config : RunConfig) (w : World)
    (name : string) :
  split_slash (src_repository config) !! 1%nat = Some name →
  out_res (_main env config w) = Ok tt →
  let repo := path_join (path_of_string "data/raw") (path_of_string name) in
  let dry := dry_run config in
  let t := default_timeout_sec config in
  let w1 := out_world (_check_tools env dry t w) in
  let w2 := out_world (_filter_history env (src_repository config)
                         (target_dir config) repo dry t w1) in
  let w3 := out_world (_change_root_directory env repo (target_dir config)
                         dry t w2) in
  let w4 := out_world (_git_commit env repo (git_user_name config)
                         (git_user_email config) "chore: change root directory."
                         dry t w3) in
  ∃ q2 m2 targets q4 m4,
    stat w2 (path_join (mkPath true (w_cwd w2)) repo) = inr (q2, Dir m2) ∧
    out_res (iterdir env (target_dir config) (mkWorld (w_fs w2) q2 (w_spawned w2)))
      = Ok targets ∧
    stat w4 repo = inr (q4, Dir m4) ∧
    commands (out_events (_main env config w)) =
      main_commands config (w_cwd w) name
        (first_moves (dom m2) targets ++ second_moves (dom m2) targets)
        (match stat (mkWorld (w_fs w4) q4 (w_spawned w4))
                    (path_of_string "index.md")
         with inr _ => true | inl _ => false end).
Proof.
  intros Hname Hok. cbn zeta. unfold _main in *. rewrite Hname in *.
  apply bind_ok in Hok as ([] & _ & Hok & ->).
  apply bind_ok in Hok as (n & [= <-] & Hok & ->).
  cbn [out_events out_res out_world log emit mret M_ret app] in *.
  apply bind_ok in Hok as (tools & Htools & Hok & ->).
  destruct tools; [|done]. cbn [negb] in *.
  destruct (check_tools_true _ _ _ _ Htools) as [Hc1 Hcwd].
  set (w1 := out_world (_check_tools env _ _ w)) in *.
  apply bind_ok in Hok as ([] & Hfilter & Hok & ->).
  pose proof (filter_history_ok _ _ _ _ _ _ _ Hfilter) as Hc2.
  set (w2 := out_world (_filter_history env _ _ _ _ _ w1)) in *.
  apply bind_ok in Hok as ([] & Hflat & Hok & ->).
  destruct (change_root_commands _ _ _ _ _ _ Hflat)
    as (q2 & m2 & targets & Hs2 & Ht2 & Hc3).
  set (w3 := out_world (_change_root_directory env _ _ _ _ w2)) in *.
  apply bind_ok in Hok as ([] & Hcommit & Hok & ->).
  pose proof (issues_ok _ _ _ _ (issues_git_commit _ _ _ _ _ _ _) Hcommit) as Hc4.
  set (w4 := out_world (_git_commit env _ _ _ _ _ _ w3)) in *.
  apply bind_ok in Hok as (renamed & Hrename & Hok & ->).
  destruct (git_rename_index _ _ _ _ _ _ Hrename) as (q4 & m4 & Hs4 & Hb & Hc5).
  set (w5 := out_world (_git_rename env _ _ _ _ w4)) in *.
  apply bind_ok in Hok as ([] & Hcommit2 & Hok & ->).
  set (w6 := out_world _) in Hok |- *.
  apply bind_ok in Hok as ([] & Hpublish & Hok & ->).
  pose proof (issues_ok _ _ _ _ (issues_publish _ _ _ _ _ _ _) Hpublish) as Hc7.
  set (w7 := out_world (_create_gh_repo_and_set_upstream env _ _ _ _ _ _ w6)) in *.
  apply bind_ok in Hok as ([] & Hpush & Hok & ->).
  pose proof (issues_ok _ _ _ _ (issues_git_push _ _ _ _ _ _) Hpush) as Hc8.
  set (w8 := out_world (_git_push env _ _ _ _ _ w7)) in *.
  apply bind_ok in Hok as ([] & Harchive & Hok & ->).
  set (w9 := out_world _) in Hok |- *.
  exists q2, m2, targets, q4, m4.
  split; [done|]. split; [done|]. split; [done|].
  rewrite <- Hb.
  unfold main_commands. cbv zeta in Hc5 |- *.
  change (commands (EvLog INFO (MsgConfig config) :: ?l)) with (commands l).
  rewrite !commands_app, Hc1, Hc2, Hc3, Hc4, Hc5, Hc7, Hc8, Hcwd.
  assert (commands (out_events
            ((if clean config
              then rmtree (path_str (path_join (path_of_string "data/raw")
                                               (path_of_string name)))
              else mret tt) w9)) = []) as ->.
  { destruct (clean config); [by rewrite rmtree_events|done]. }
  assert (commands (out_events
            ((if is_archive config
              then _gh_repo_archive env (dst_repository config) (dry_run config)
                     (default_timeout_sec config)
              else mret tt) w8)) =
          if is_archive config
          then [["gh"; "repo"; "archive"; dst_repository config; "-y"]]
          else []) as ->.
  { destruct (is_archive config); [apply run_command_commands|done]. }
  rewrite app_nil_r.
  destruct renamed.
  - rewrite (issues_ok _ _ _ _ (issues_git_commit _ _ _ _ _ _ _) Hcommit2).
    by rewrite <- !app_assoc.
  - by rewrite <- !app_assoc.
Qed.

Opaque _check_tools _filter_history _change_root_directory _git_commit
  _git_rename _git_push _create_gh_repo_and_set_upstream _gh_repo_archive.

Lemma main_commands_in_order_witness :
  commands (out_events (_main demo_env (demo_config false) fresh_world)) =
  [["git"; "--version"]; ["git"; "filter-repo"; "--version"]; ["gh"; "--version"];
   ["gh"; "repo"; "clone"; "org/mono"; "/work/data/raw/mono"];
   ["git"; "filter-repo"; "--path"; "libs/widget"];
   ["git"; "mv"; "libs/widget/index.md"; "index.md"];
   ["git"; "mv"; "libs/widget/a.txt"; "a.txt"];
   ["git"; "mv"; "libs/widget/libs"; "libs_test"];
   ["git"; "mv"; "libs_test"; "libs"];
   ["git"; "add"; "."];
   ["git"; "commit"; "-m"; "chore: change root directory."];
   ["git"; "mv"; "index.md"; "README.md"];
   ["git"; "add"; "."];
   ["git"; "commit"; "-m"; "chore: change filenames."];
   ["gh"; "repo"; "create"; "org/widget"; "--private"];
   ["git"; "remote"; "add"; "upstream"; "https://github.com/org/widget.git"];
   ["git"; "push"; "upstream"; "master"]].
Proof.
  destruct (main_commands_in_order demo_env (demo_config false) fresh_world "mono")
    as (q2 & m2 & targets & q4 & m4 & H2 & Ht & H4 & ->).
  - vm_compute. reflexivity.
  - vm_compute. reflexivity.
  - vm_compute in H2. injection H2 as <- <-.
    vm_compute in Ht. injection Ht as <-.
    vm_compute in H4. injection H4 as <- <-.
    vm_compute. reflexivity.
Defined.

(** ** Root Flattening in a dry run *)

Lemma dry_moves (env : Env) (roots : gset string) (t : Z) (targets : list Path)
    (skip : list (string * string)) (w : World) :
  ∃ evs, for_each targets skip (move_target env roots true t) w =
         mkOut evs (Ok (skip ++ collisions roots targets)) w.
Proof.
  revert skip. induction targets as [|f targets IH]; intros skip.
  { exists []. by rewrite app_nil_r. }
  rewrite for_each_cons, bind_run, move_target_run. cbv zeta.
  rewrite run_command_dry. cbn [out_events out_res out_world].
  destruct (IH (skip ++ collisions roots [f])) as [evs ->].
  cbn [out_events out_res out_world]. eexists.
  by rewrite (collisions_cons roots f targets), app_assoc.
Qed.

Lemma dry_renames (env : Env) (t : Z) (pairs : list (string * string))
    (w : World) :
  ∃ evs, for_each pairs tt (move_back env true t) w = mkOut evs (Ok tt) w.
Proof.
  induction pairs as [|[a b] pairs [evs IH]]; [by exists []|].
  rewrite for_each_cons, bind_run, move_back_run. cbv zeta.
  rewrite run_command_dry. cbn [out_events out_res out_world]. rewrite IH.
  cbn [out_events out_res out_world]. by eexists.
Qed.

Transparent _check_tools _filter_history _change_root_directory _git_commit
  _git_rename _git_push _create_gh_repo_and_set_upstream _gh_repo_archive.

(** X19: a dry run of Root Flattening moves nothing and deletes all the
    same.  When the clone and the target directory are there, the root
    entries have plain names and all but [.git] are directories, the
    step creates no process and leaves of the clone nothing but [.git]:
    the target directory and its entries are deleted with the rest. *)
Theorem dry_run_flattening_empties_clone (env : Env) (clone_dir target_dir : Path)
    (t : Z) (w : World) (q qt : list string) (R T : gmap string node) :
  (∃ m, lookup_path (w_cwd w) (w_fs w) = Some (Dir m)) →
  stat w (path_join (mkPath true (w_cwd w)) clone_dir) = inr (q, Dir R) →
  stat (mkWorld (w_fs w) q (w_spawned w)) target_dir = inr (qt, Dir T) →
  set_Forall plain_name (dom R) →
  map_Forall (λ k n, k ≠ ".git" → is_dir n = true) R →
  let o := _change_root_directory env clone_dir target_dir true t w in
  w_fs (out_world o) = insert_path q (Dir (flattened R ∅)) (w_fs w) ∧
  spawned (out_events o) = [] ∧
  (dir_reachable (w_fs (out_world o)) (w_cwd w) → out_res o = Ok tt).
Proof.
  intros [mc Hcwd] Hstat Htarget HRp HRd. cbn zeta.
  pose proof (stat_lookup _ _ _ _ Hstat) as Hq.
  assert (Hsp : spawned (out_events
            (_change_root_directory env clone_dir target_dir true t w)) = []).
  { apply spawned_not_popen.
    cut (emits not_popen
           (_change_root_directory env clone_dir target_dir true t)).
    { intros H. apply H. }
    emits_tac; simpl; done. }
  rewrite Hsp. clear Hsp.
  unfold _change_root_directory.
  rewrite bind_run, (absolute_there _ _ _ Hcwd).
  cbn [out_events out_res out_world].
  match goal with |- context [_working_directory _ ?b w] => set (body := b) end.
  destruct (working_directory_cases
              (path_join (mkPath true (w_cwd w)) clone_dir) body w)
    as [(lead & e & _ & [Hn|Hn] & _)|(q' & m' & Hs & ->)].
  { exfalso. apply Hn. by eauto. }
  { exfalso. apply Hn. by eauto. }
  rewrite Hstat in Hs. injection Hs as <- <-.
  cbn zeta. cbn [out_events out_res out_world].
  assert (∃ evs, body (mkWorld (w_fs w) q (w_spawned w)) =
            mkOut evs (Ok tt)
              (mkWorld (insert_path q (Dir (flattened R ∅)) (w_fs w)) q
                       (w_spawned w)))
    as (evs & ->).
  2:{ cbn [out_events out_res out_world]. rewrite chdir_fs. cbn [w_fs].
      split; [done|]. split; [done|]. intros Hback.
      by rewrite (chdir_back (w_cwd w)
                    (mkWorld (insert_path q (Dir (flattened R ∅)) (w_fs w)) q
                             (w_spawned w)) Hback). }
  unfold body. clear body.
  rewrite bind_run, iterdir_run.
  assert (stat (mkWorld (w_fs w) q (w_spawned w)) (mkPath false [])
          = inr (q, Dir R))
    as -> by (unfold stat; cbn [p_abs p_parts w_fs w_cwd walk]; by rewrite Hq).
  cbn [out_events out_res out_world]. rewrite root_names.
  rewrite bind_run, iterdir_run, Htarget.
  cbn [out_events out_res out_world]. rewrite bind_run.
  match goal with |- context [for_each ?ts [] (move_target env ?r true t) ?w0] =>
    destruct (dry_moves env r t ts [] w0) as [ev1 ->] end.
  cbn [out_events out_res out_world app]. rewrite bind_run.
  replace (mkWorld (w_fs w) q (w_spawned w))
    with (mkWorld (insert_path q (Dir R) (w_fs w)) q (w_spawned w))
    by (by rewrite (insert_path_same _ _ _ Hq)).
  destruct (flatten_deletions (w_fs w) q R Hq
              (env_set_iter env (elements (dom R))) R (w_spawned w))
    as (ev2 & M2 & -> & HM2).
  { rewrite (env_set_iter_perm env). apply NoDup_elements. }
  { intros k Hk. rewrite (env_set_iter_perm env), elem_of_elements in Hk.
    split; [by apply HRp|]. intros Hg.
    apply elem_of_dom in Hk as [r Hr]. rewrite Hr.
    specialize (HRd k r Hr Hg). destruct r as [|mm]; [done|]. by eauto. }
  cbn [out_events out_res out_world].
  match goal with |- context [for_each ?ps tt (move_back env true t) ?w0] =>
    destruct (dry_renames env t ps w0) as [ev3 ->] end.
  cbn [out_events out_res out_world]. eexists. f_equal. f_equal. f_equal. f_equal.
  apply map_eq. intros k. rewrite HM2, flattened_lookup, lookup_empty.
  assert (k ∈ env_set_iter env (elements (dom R)) ↔ k ∈ dom R) as Hel
    by (by rewrite (env_set_iter_perm env), elem_of_elements).
  destruct (decide (k = ".git")) as [->|Hg].
  - by rewrite decide_False by tauto.
  - case_decide as Hk; [done|]. apply not_elem_of_dom. tauto.
Qed.

Opaque _check_tools _filter_history _change_root_directory _git_commit
  _git_rename _git_push _create_gh_repo_and_set_upstream _gh_repo_archive.

Lemma dry_run_flattening_empties_clone_witness :
  let o := _change_root_directory demo_env (path_of_string "data/raw/mono")
             (path_of_string "libs/widget") true 30 stale_world in
  lookup_path ["work"; "data"; "raw"; "mono"] (w_fs (out_world o)) =
    Some (Dir {[ ".git" := Dir ∅ ]}) ∧
  spawned (out_events o) = [].
Proof.
  destruct (dry_run_flattening_empties_clone demo_env
              (path_of_string "data/raw/mono") (path_of_string "libs/widget")
              30 stale_world ["work"; "data"; "raw"; "mono"]
              ["work"; "data"; "raw"; "mono"; "libs"; "widget"]
              {[ ".git" := Dir ∅;
                 "libs" := Dir {[ "widget" :=
                   Dir {[ "a.txt" := File "a";
                          "index.md" := File "index";
                          "libs" := Dir {[ "c.txt" := File "c" ]} ]} ]} ]}
              {[ "a.txt" := File "a";
                 "index.md" := File "index";
                 "libs" := Dir {[ "c.txt" := File "c" ]} ]})
    as (Hfs & Hsp & _).
  - eexists. vm_compute. reflexivity.
  - vm_compute. reflexivity.
  - vm_compute. reflexivity.
  - apply (bool_decide_unpack _). vm_compute. exact I.
  - apply (bool_decide_unpack _). vm_compute. exact I.
  - cbv zeta. split; [|exact Hsp]. rewrite Hfs. vm_compute. reflexivity.
Defined.

(** ** The context manager and its body *)

Transparent _working_directory chdir getcwd.

Lemma working_directory_blocked {A} (path : Path) (body : M A) (w : World)
    (m : gmap string node) (k : oserror) :
  lookup_path (w_cwd w) (w_fs w) = Some (Dir m) → stat w path = inl k →
  _working_directory path body w =
  mkOut [EvChdir (path_str path)] (Raise (OSError k (path_str path))) w.
Proof.
  intros Hc Hs. unfold _working_directory, getcwd. rewrite bind_run, Hc.
  cbn [out_events out_res out_world]. rewrite bind_run.
  unfold chdir, emit, get_world, raise. rewrite !bind_run.
  cbn [out_events out_res out_world]. by rewrite Hs.
Qed.

Opaque _working_directory chdir getcwd.

(** X20: the context manager and its body.  When the directory cannot
    be reached, the body is not run: the [OSError] of [os.chdir] is
    raised and nothing else happened.  When it is a directory, the body
    runs in it, and its result or its exception is what the caller gets,
    once the process is back in the directory it came from. *)
Theorem working_directory_runs_body {A} (path : Path) (body : M A) (w : World) :
  (∃ m, lookup_path (w_cwd w) (w_fs w) = Some (Dir m)) →
  (∀ k, stat w path = inl k →
     _working_directory path body w =
     mkOut [EvChdir (path_str path)] (Raise (OSError k (path_str path))) w) ∧
  (∀ q m, stat w path = inr (q, Dir m) →
     let b := body (mkWorld (w_fs w) q (w_spawned w)) in
     dir_reachable (w_fs (out_world b)) (w_cwd w) →
     _working_directory path body w =
     mkOut (EvChdir (path_str path) :: out_events b ++
            [EvChdir (path_str (mkPath true (w_cwd w)))])
           (out_res b)
           (mkWorld (w_fs (out_world b)) (w_cwd w) (w_spawned (out_world b)))).
Proof.
  intros [mc Hc]. split.
  - intros k Hs. by apply (working_directory_blocked _ _ _ mc).
  - intros q m Hs b Hback.
    destruct (working_directory_cases path body w)
      as [(lead & e & _ & [Hn|Hn] & _)|(q' & m' & Hs' & ->)].
    { exfalso. apply Hn. by eauto. }
    { exfalso. apply Hn. by eauto. }
    rewrite Hs in Hs'. injection Hs' as <- <-. cbn zeta. fold b.
    by rewrite (chdir_back _ _ Hback).
Qed.

Lemma working_directory_runs_body_witness :
  out_res (_working_directory (path_of_string "data/raw/mono")
             (rmtree "libs";; (raise (ValueError "stop") : M unit)) stale_world)
    = Raise (ValueError "stop") ∧
  out_res (_working_directory (path_of_string "data/raw/mono")
             (rmtree "libs") fresh_world)
    = Raise (OSError ENOENT "data/raw/mono").
Proof.
  destruct (working_directory_runs_body (path_of_string "data/raw/mono")
              (rmtree "libs";; (raise (ValueError "stop") : M unit)) stale_world)
    as [_ H1]; [eexists; vm_compute; reflexivity|].
  destruct (working_directory_runs_body (path_of_string "data/raw/mono")
              (rmtree "libs") fresh_world)
    as [H2 _]; [eexists; vm_compute; reflexivity|].
  split.
  - rewrite (H1 ["work"; "data"; "raw"; "mono"]
               {[ ".git" := Dir ∅;
                  "libs" := Dir {[ "widget" :=
                    Dir {[ "a.txt" := File "a";
                           "index.md" := File "index";
                           "libs" := Dir {[ "c.txt" := File "c" ]} ]} ]} ]}).
    + vm_compute. reflexivity.
    + vm_compute. reflexivity.
    + split; [vm_compute; reflexivity|]. eexists. vm_compute. reflexivity.
  - rewrite (H2 ENOENT); [reflexivity|]. vm_compute. reflexivity.
Defined.

(** ** A dry run without a clone *)

Transparent _check_tools _filter_history.

Lemma check_tools_dry (env : Env) (t : Z) (w : World) :
  _check_tools env true t w =
  mkOut ((λ c, EvLog INFO (MsgCommand c)) <$> tool_commands) (Ok true) w.
Proof.
  unfold _check_tools, try_except. rewrite !bind_run, !run_command_dry.
  reflexivity.
Qed.

Lemma filter_history_dry_blocked (env : Env) (src : string)
    (target clone : Path) (t : Z) (w : World) (m : gmap string node)
    (k : oserror) :
  lookup_path (w_cwd w) (w_fs w) = Some (Dir m) →
  stat w (path_join (mkPath true (w_cwd w)) clone) = inl k →
  _filter_history env src target clone true t w =
  mkOut [EvLog INFO (MsgCommand ["gh"; "repo"; "clone"; src;
                                 path_str (path_join (mkPath true (w_cwd w)) clone)]);
         EvChdir (path_str (path_join (mkPath true (w_cwd w)) clone))]
        (Raise (OSError k (path_str (path_join (mkPath true (w_cwd w)) clone))))
        w.
Proof.
  intros Hc Hs. unfold _filter_history.
  rewrite bind_run, (absolute_there _ _ _ Hc).
  cbn [out_events out_res out_world].
  rewrite bind_run, run_command_dry. cbn [out_events out_res out_world].
  rewrite bind_run, (absolute_there _ _ _ Hc).
  cbn [out_events out_res out_world].
  by rewrite (working_directory_blocked _ _ _ m k Hc Hs).
Qed.

Opaque _check_tools _filter_history.

Lemma bind_ok_run {A B} (m : M A) (f : A → M B) (w : World)
    (evs : list event) (a : A) (w' : World) :
  m w = mkOut evs (Ok a) w' →
  (m ≫= f) w = mkOut (evs ++ out_events (f a w')) (out_res (f a w'))
                     (out_world (f a w')).
Proof. intros H. by rewrite bind_run, H. Qed.

Lemma bind_raise_run {A B} (m : M A) (f : A → M B) (w : World)
    (evs : list event) (e : exn) (w' : World) :
  m w = mkOut evs (Raise e) w' → (m ≫= f) w = mkOut evs (Raise e) w'.
Proof. intros H. by rewrite bind_run, H. Qed.

(** X21: a dry run started where the clone is not there does not get
    beyond the History Filter step.  The tool checks and the clone are
    logged, nothing is run and nothing is changed; then entering the
    clone directory fails, and [_main] raises the [OSError] of
    [os.chdir]: the later steps are not shown. *)
Theorem main_dry_run_without_clone (env : Env) (config : RunConfig) (w : World)
    (name : string) (k : oserror) :
  dry_run config = true →
  split_slash (src_repository config) !! 1%nat = Some name →
  (∃ m, lookup_path (w_cwd w) (w_fs w) = Some (Dir m)) →
  let dir := path_join (mkPath true (w_cwd w))
               (path_join (path_of_string "data/raw") (path_of_string name)) in
  stat w dir = inl k →
  let o := _main env config w in
  out_res o = Raise (OSError k (path_str dir)) ∧
  commands (out_events o) =
    tool_commands ++
    [["gh"; "repo"; "clone"; src_repository config; path_str dir]] ∧
  out_world o = w.
Proof.
  intros Hdry Hname [mc Hc] dir Hs. cbn zeta.
  unfold _main. rewrite Hname, Hdry.
  rewrite (bind_ok_run _ _ _ [EvLog INFO (MsgConfig config)] tt w) by reflexivity.
  rewrite ret_bind.
  rewrite (bind_ok_run _ _ _ _ true w (check_tools_dry env _ w)).
  cbn [negb].
  rewrite (bind_raise_run _ _ _ _ _ _
             (filter_history_dry_blocked _ _ _ _ _ _ mc k Hc Hs)).
  cbn [out_events out_res out_world]. done.
Qed.

Lemma main_dry_run_without_clone_witness :
  let o := _main demo_env (demo_config true) fresh_world in
  out_res o = Raise (OSError ENOENT "/work/data/raw/mono") ∧
  commands (out_events o) =
    tool_commands ++
    [["gh"; "repo"; "clone"; "org/mono"; "/work/data/raw/mono"]] ∧
  out_world o = fresh_world.
Proof.
  apply (main_dry_run_without_clone demo_env (demo_config true) fresh_world
           "mono" ENOENT).
  - reflexivity.
  - vm_compute. reflexivity.
  - eexists. vm_compute. reflexivity.
  - vm_compute. reflexivity.
Defined.

(** ** What the logger shows from two [-v] on *)

Lemma shown_commands (config : RunConfig) (evs : list event) :
  verbose config ≠ 0 → verbose config ≠ 1 →
  Forall command_at_info evs →
  commands (displayed config evs) = commands evs.
Proof.
  intros H0 H1. induction 1 as [|e evs He _ IH]; [done|].
  unfold displayed in *. rewrite filter_cons. case_decide as Hs.
  - destruct e as [l m| | | | | |]; try exact IH.
    destruct m; try exact IH.
    match goal with |- context [MsgCommand ?a] =>
      change (commands (EvLog l (MsgCommand a) :: ?x)) with (a :: commands x) end.
    by rewrite IH.
  - destruct e as [l m| | | | | |]; try exact IH.
    destruct m; try exact IH. exfalso. apply Hs. simpl in He. subst l.
    unfold shown, loglevel, levelno.
    destruct (verbose config) as [|[[]|[]|]|]; done.
Qed.

(** X22: from two [-v] flags on, and for every count the table of
    [_main] does not list (the threshold is then DEBUG), each command
    line handed to the Command Runner is shown, in a dry run as in a
    real run. *)
Theorem commands_shown_from_vv (env : Env) (config : RunConfig) (w : World) :
  verbose config ≠ 0 → verbose config ≠ 1 →
  commands (displayed config (out_events (script env config w))) =
  commands (out_events (script env config w)).
Proof.
  intros H0 H1. apply shown_commands; [done|done|]. apply emits_script_commands.
Qed.

Lemma commands_shown_from_vv_witness :
  commands (displayed
              (mkRunConfig "org/mono" "org/widget" (path_of_string "libs/widget")
                           false false None None false 30 true 7)
              (out_events
                 (script demo_env
                    (mkRunConfig "org/mono" "org/widget"
                                 (path_of_string "libs/widget")
                                 false false None None false 30 true 7)
                    fresh_world))) =
  tool_commands ++ [["gh"; "repo"; "clone"; "org/mono"; "/work/data/raw/mono"]].
Proof.
  rewrite (commands_shown_from_vv demo_env
             (mkRunConfig "org/mono" "org/widget" (path_of_string "libs/widget")
                          false false None None false 30 true 7) fresh_world);
    [|discriminate|discriminate].
  vm_compute. reflexivity.
Defined.

(** ** The Rename Step *)

Lemma decisions_app (l1 l2 : list event) :
  decisions (l1 ++ l2) = decisions l1 ++ decisions l2.
Proof. apply omap_app. Qed.

Lemma run_command_decisions (env : Env) (args : list string) (dry : bool)
    (t : Z) (w : World) :
  decisions (out_events (_run_command env args dry t w)) = [Renamed args].
Proof.
  destruct dry; [by rewrite run_command_dry|].
  rewrite run_command_real. by repeat case_match.
Qed.

Lemma run_command_spawned_dry (env : Env) (args : list string) (dry : bool)
    (t : Z) (w : World) :
  spawned (out_events (_run_command env args dry t w)) = if dry then [] else [args].
Proof.
  destruct dry; [by rewrite run_command_dry|]. apply run_command_spawned.
Qed.

(** The commands are the renames among the decisions. *)
Lemma commands_decisions (evs : list event) :
  commands evs =
  omap (λ d, match d with Renamed a => Some a | Skipped _ => None end)
       (decisions evs).
Proof.
  unfold commands, decisions.
  induction evs as [|e evs IH]; [done|].
  destruct e as [l m| | | | | |]; try exact IH.
  destruct m; try exact IH; cbn [omap list_omap]; by rewrite ?IH.
Qed.

(** The loop of the step against its plan. *)
Lemma rename_loop_plan (env : Env) (dry : bool) (t : Z)
    (names : list (Path * Path)) (b0 : bool) (w : World) :
  let r := for_each names b0 (rename_one env dry t) w in
  let plan := rename_plan env dry t names w in
  decisions (out_events r) `prefix_of` plan ∧
  (∀ b, out_res r = Ok b →
     decisions (out_events r) = plan ∧
     (b = true ↔ b0 = true ∨ ∃ args, Renamed args ∈ plan)) ∧
  spawned (out_events r) = (if dry then [] else commands (out_events r)).
Proof.
  revert b0 w. induction names as [|[src dst] names IH]; intros b0 w; cbn zeta.
  { cbn [for_each rename_plan]. split; [done|]. split; [|by destruct dry].
    intros b [= <-]. split; [done|]. split; [by left|].
    intros [?|[args Hin]]; [done|]. by apply elem_of_nil in Hin. }
  rewrite for_each_cons, bind_run. cbn [rename_plan].
  destruct (stat w src) as [k|[q n]] eqn:E.
  - rewrite (rename_one_absent _ _ _ _ _ _ _ _ E).
    cbn [out_events out_res out_world].
    destruct (IH b0 w) as (I1 & I2 & I3). cbn zeta in *.
    rewrite decisions_app, spawned_app, commands_app, I3.
    split; [by apply prefix_cons|]. split; [|by destruct dry].
    intros b Hb. destruct (I2 b Hb) as [-> Hiff]. split; [done|].
    rewrite Hiff. split.
    + intros [?|[args Hin]]; [by left|]. right. exists args. by right.
    + intros [?|[args [[=]|Hin]%elem_of_cons]]; [by left|]. right. by exists args.
  - rewrite (rename_one_present _ _ _ _ _ _ _ _ _ E), bind_run.
    cbv zeta.
    pose proof (run_command_decisions env
                  ["git"; "mv"; path_str src; path_str dst] dry t w) as Hd.
    pose proof (run_command_spawned_dry env
                  ["git"; "mv"; path_str src; path_str dst] dry t w) as Hs.
    pose proof (run_command_commands env
                  ["git"; "mv"; path_str src; path_str dst] dry t w) as Hc.
    destruct (IH true (out_world (_run_command env
                ["git"; "mv"; path_str src; path_str dst] dry t w)))
      as (I1 & I2 & I3). cbn zeta in *.
    destruct (_run_command env ["git"; "mv"; path_str src; path_str dst] dry t w)
      as [ev [[]|e] w']; cbn [out_events out_res out_world mret M_ret] in *.
    + rewrite app_nil_r, !decisions_app, !spawned_app, !commands_app.
      rewrite Hd, Hs, Hc, I3.
      split; [by apply prefix_cons|]. split; [|by destruct dry].
      intros b Hb. destruct (I2 b Hb) as [-> Hiff]. split; [done|].
      rewrite Hiff. split; [|by intros; left].
      intros _. right. eexists. by left.
    + rewrite Hd, Hs, Hc. split; [apply prefix_cons, prefix_nil|].
      split; [done|by destruct dry].
Qed.

Transparent _git_rename.

(** C7, as the code has it.  In an existing working tree the step goes
    through the pairs of its map in order: a pair whose original path is
    absent at that moment is skipped, with one log entry that names it
    and no exception; a pair whose original path is there is handed to
    the Command Runner as [git mv].  When the step returns, every pair
    was decided in this way, and the answer is true exactly if a rename
    was handed to the Command Runner.  With dry-run off a process was
    run for each of these, so that the answer is true exactly if a
    rename was performed; with dry-run on none is.  When no original
    path exists (or the map is empty) the step logs the skips, answers
    false and changes nothing. *)
Theorem git_rename_result (env : Env) (git_directory : Path)
    (names : list (Path * Path)) (dry : bool) (t : Z) (w : World)
    (q : list string) (m : gmap string node) :
  (∃ mc, lookup_path (w_cwd w) (w_fs w) = Some (Dir mc)) →
  stat w git_directory = inr (q, Dir m) →
  let o := _git_rename env git_directory names dry t w in
  let tree := mkWorld (w_fs w) q (w_spawned w) in
  let plan := rename_plan env dry t names tree in
  decisions (out_events o) `prefix_of` plan ∧
  (∀ b, out_res o = Ok b →
     decisions (out_events o) = plan ∧ (b = true ↔ ∃ args, Renamed args ∈ plan)) ∧
  spawned (out_events o) = (if dry then [] else commands (out_events o)) ∧
  (dry = false → true_iff_performed env git_directory names dry t w) ∧
  ((∀ src dst, (src, dst) ∈ names → ∃ k, stat tree src = inl k) →
   dir_reachable (w_fs w) (w_cwd w) →
   o = mkOut (EvChdir (path_str git_directory) ::
              ((λ p, EvLog INFO (MsgSkip (path_str p.1))) <$> names) ++
              [EvChdir (path_str (mkPath true (w_cwd w)))])
             (Ok false) w).
Proof.
  intros [mc Hc] Hs. cbn zeta.
  assert (Hrun : _git_rename env git_directory names dry t w =
            let b := for_each names false (rename_one env dry t)
                       (mkWorld (w_fs w) q (w_spawned w)) in
            let f := chdir (mkPath true (w_cwd w)) (out_world b) in
            mkOut (EvChdir (path_str git_directory) :: out_events b ++ out_events f)
                  (match out_res f with Ok _ => out_res b | Raise e => Raise e end)
                  (out_world f)).
  { unfold _git_rename.
    destruct (working_directory_cases git_directory
                (for_each names false (rename_one env dry t)) w)
      as [(lead & e & _ & [Hn|Hn] & _)|(q' & m' & Hs' & ->)].
    - exfalso. apply Hn. by eauto.
    - exfalso. apply Hn. by eauto.
    - rewrite Hs in Hs'. by injection Hs' as <- <-. }
  destruct (rename_loop_plan env dry t names false
              (mkWorld (w_fs w) q (w_spawned w))) as (L1 & L2 & L3).
  cbn zeta in *.
  set (body := for_each names false (rename_one env dry t)
                 (mkWorld (w_fs w) q (w_spawned w))) in *.
  cbv zeta in Hrun.
  pose proof (chdir_events (mkPath true (w_cwd w)) (out_world body)) as Hev.
  assert (Hdec : decisions (out_events (_git_rename env git_directory names dry t w))
                 = decisions (out_events body)).
  { rewrite Hrun. cbn [out_events]. rewrite Hev.
    change (decisions (EvChdir ?s :: ?l)) with (decisions l).
    by rewrite decisions_app, app_nil_r. }
  assert (Hcom : commands (out_events (_git_rename env git_directory names dry t w))
                 = commands (out_events body)).
  { by rewrite !commands_decisions, Hdec. }
  assert (Hsp : spawned (out_events (_git_rename env git_directory names dry t w))
                = spawned (out_events body)).
  { rewrite Hrun. cbn [out_events]. rewrite Hev.
    change (spawned (EvChdir ?s :: ?l)) with (spawned l).
    by rewrite spawned_app, app_nil_r. }
  assert (Hres : ∀ b, out_res (_git_rename env git_directory names dry t w) = Ok b →
                      out_res body = Ok b).
  { intros b. rewrite Hrun. cbn [out_res].
    by destruct (out_res (chdir _ _)). }
  split_and!.
  - by rewrite Hdec.
  - intros b Hb%Hres. destruct (L2 b Hb) as [E Hiff]. rewrite Hdec.
    split; [done|]. rewrite Hiff. split; [by intros [?|?]|by right].
  - by rewrite Hsp, Hcom.
  - intros -> b Hb%Hres. destruct (L2 b Hb) as [E Hiff].
    rewrite Hsp, L3, commands_decisions, E, Hiff. split.
    + intros [?|[args Hin]]; [done|]. intros Hnil.
      assert (args ∈ omap (λ d, match d with Renamed a => Some a | Skipped _ => None end)
                (rename_plan env false t names (mkWorld (w_fs w) q (w_spawned w))))
        as Hin' by (apply list_elem_of_omap; by exists (Renamed args)).
      rewrite Hnil in Hin'. by apply elem_of_nil in Hin'.
    + intros Hne. right.
      destruct (omap _ _) as [|args l] eqn:Eo; [done|].
      assert (args ∈ args :: l) as Hin by left. rewrite <- Eo in Hin.
      apply list_elem_of_omap in Hin as ([s|a] & Hin & Ha); [done|].
      injection Ha as ->. by exists args.
  - intros Habs Hback. rewrite Hrun. unfold body.
    rewrite rename_loop_all_absent by done. cbn zeta.
    cbn [out_events out_res out_world].
    rewrite (chdir_back (w_cwd w) (mkWorld (w_fs w) q (w_spawned w)) Hback).
    cbn [out_events out_res out_world w_fs w_spawned]. by destruct w.
Qed.

Opaque _git_rename.

Lemma git_rename_result_witness :
  let o := _git_rename demo_env (path_of_string "data/raw/mono")
             [(path_of_string "index.md", path_of_string "README.md");
              (path_of_string "libs", path_of_string "lib")]
             false 30 stale_world in
  decisions (out_events o) =
    [Skipped "index.md"; Renamed ["git"; "mv"; "libs"; "lib"]] ∧
  (∀ b, out_res o = Ok b → (b = true ↔ spawned (out_events o) ≠ [])).
Proof.
  destruct (git_rename_result demo_env (path_of_string "data/raw/mono")
              [(path_of_string "index.md", path_of_string "README.md");
               (path_of_string "libs", path_of_string "lib")]
              false 30 stale_world ["work"; "data"; "raw"; "mono"]
              {[ ".git" := Dir ∅;
                 "libs" := Dir {[ "widget" :=
                   Dir {[ "a.txt" := File "a";
                          "index.md" := File "index";
                          "libs" := Dir {[ "c.txt" := File "c" ]} ]} ]} ]})
    as (_ & H2 & _ & H4 & _).
  - eexists. vm_compute. reflexivity.
  - vm_compute. reflexivity.
  - cbv zeta. split; [|exact (H4 eq_refl)].
    destruct (H2 true) as [-> _]; [vm_compute; reflexivity|].
    vm_compute. reflexivity.
Defined.

(** C7, as stated, fails in a dry run: with [index.md] at the root of
    the clone the step answers true, and no rename was performed: no
    process was run and the file is where it was. *)
Lemma git_rename_dry_run_answers_true :
  ¬ true_iff_performed demo_env (path_of_string "data/raw/mono")
      [(path_of_string "index.md", path_of_string "README.md")]
      true 30 flat_world.
Proof.
  intros H. destruct (H true) as [H1 _]; [vm_compute; reflexivity|].
  apply (H1 eq_refl). vm_compute. reflexivity.
Qed.
